(** * mikmc55/catalogs: the cache lifecycle of the "Action Varied" add-on

    A shallow embedding of [index.js]: the paginated discovery of movies
    ([fetchMoviesForCombination], [fetchMovies]), the refresh of the two
    in-memory caches ([updateCatalogAndMetaCache]), the start-up sequence
    ([loadCache], [startServer]) and the two request handlers
    ([defineCatalogHandler], [defineMetaHandler]).

    JavaScript objects with optional properties are records of [option]
    fields ([None] stands for [undefined] and [null]), the object used as a
    dictionary ([metaCache]) is a [gmap] over property keys, an [async]
    function is cut at its [await]s into the segments the event loop runs
    without interruption. *)

From Stdlib Require Import ZArith QArith Qround Qabs Ascii String.
From stdpp Require Import gmap strings list fin_maps pretty sorting.

Local Open Scope Z_scope.

(** ** Strings *)

(** Truthiness of a string value that may be absent: [undefined], [null]
    and the empty string are falsy. *)
Definition truthy (v : option string) : bool :=
  match v with
  | Some (String _ _) => true
  | _ => false
  end.

(** [s.startsWith(q)]. *)
Fixpoint startsWith (s q : string) : bool :=
  match q, s with
  | EmptyString, _ => true
  | String c q', String d s' => if Ascii.eqb c d then startsWith s' q' else false
  | String _ _, EmptyString => false
  end.

(** [s.includes(q)]: [q] occurs in [s] at some position. *)
Fixpoint includes (s q : string) : bool :=
  startsWith s q ||
  match s with
  | EmptyString => false
  | String _ s' => includes s' q
  end.

(** [s.split(sep)] for a separator of one character: the pieces between the
    occurrences of [sep]; never the empty array. *)
Fixpoint split (sep : ascii) (s : string) : list string :=
  match s with
  | EmptyString => [EmptyString]
  | String c s' =>
      if Ascii.eqb c sep then EmptyString :: split sep s'
      else match split sep s' with
           | piece :: pieces => String c piece :: pieces
           | [] => [String c EmptyString]
           end
  end.

(** [s.split('-')[0]]. *)
Definition split_dash_0 (s : string) : string :=
  match split "-" s with
  | piece :: _ => piece
  | [] => EmptyString
  end.

(** Whether all characters are decimal digits, as in the numeral of an id. *)
Fixpoint allDigits (s : string) : bool :=
  match s with
  | EmptyString => true
  | String c s' => bool_decide (is_Some (Ascii.is_nat c)) && allDigits s'
  end.

(** Whether no character is a dash. *)
Fixpoint dashless (s : string) : bool :=
  match s with
  | EmptyString => true
  | String c s' => negb (Ascii.eqb c "-") && dashless s'
  end.

(** ** Numbers *)

(** [x.toFixed(1)] on the exact value of a finite number below 10^21: the
    integer [n] with [n / 10] closest to [|x|], the larger one on a tie,
    printed with one digit after the point. *)
Definition toFixed1 (x : Q) : string :=
  let n := Qfloor (Qabs x * 10 + (1 # 2))%Q in
  let digits := pretty (n / 10) +:+ "." +:+ pretty (n mod 10) in
  if (Qnum x <? 0) then "-" +:+ digits else digits.

(** ** What the process is started with

    [NUM_PAGES] is read from the environment once; [toLowerCase] and the
    parser behind [new Date(string)] are the engine's. [Date_parse] gives
    the time value in milliseconds, [None] for an invalid date (NaN). *)
Class Runtime := {
  NUM_PAGES : Z;
  toLowerCase : string → string;
  Date_parse : string → option Z
}.

Definition GENRE_COMBINATIONS : list string :=
  ["28,12"; "28,35"; "28,14"; "14,12"; "14,35"].

(** ** Data model *)

(** One element of [results] in a discover response; the properties the
    program reads. *)
Module Movie.
Record t := {
  id : N;
  title : option string;
  release_date : option string;
  poster_path : option string;
  overview : option string
}.
End Movie.

(** The body of a discover response, after the destructuring of line 117. *)
Module Discover.
Record t := {
  results : list Movie.t;
  total_pages : Z
}.
End Discover.

Module Genre.
Record t := { id : N; name : string }.
End Genre.

(** What [fetchMovieMetadata] returns: the body of a movie response, or the
    object [{ error: 'Failed to fetch movie data' }], which has the [error]
    property and no other. *)
Module MovieData.
Record t := {
  error : option string;
  title : option string;
  overview : option string;
  poster_path : option string;
  release_date : option string;
  genres : option (list Genre.t);
  runtime : option N;
  vote_average : option Q;
  backdrop_path : option string
}.
Definition failed : t :=
  {| error := Some "Failed to fetch movie data"; title := None;
     overview := None; poster_path := None; release_date := None;
     genres := None; runtime := None; vote_average := None;
     backdrop_path := None |}.
End MovieData.

(** A value of [metaCache]. *)
Module MetaEntry.
Record t := { timestamp : Z; data : MovieData.t }.
End MetaEntry.

(** [catalogCache]: [{}] at first, [{ timestamp, data }] after a refresh. *)
Module CatalogCache.
Record t := {
  timestamp : option Z;
  data : option (list Movie.t)
}.
Definition empty : t := {| timestamp := None; data := None |}.
End CatalogCache.

(** The two module-level variables of lines 46 and 47. Property keys are
    strings: [metaCache[movieId]] converts the number to its decimal
    numeral. *)
Record Store := {
  catalogCache : CatalogCache.t;
  metaCache : gmap string MetaEntry.t
}.

Definition initialStore : Store :=
  {| catalogCache := CatalogCache.empty; metaCache := ∅ |}.

Definition propertyKey (movieId : N) : string := pretty movieId.

(** ** The remote API and the clock, as one refresh run meets them

    [axios_get_discover g p]: the response to the discover request for
    genre combination [g] and page [p]; [None] when [axios.get] rejects or
    the body cannot be used. [axios_get_movie k id]: the response to the
    movie request issued for the [k]-th entry of the run. [Date_now k]: the
    clock at its [k]-th reading in the run. *)
Record World := {
  axios_get_discover : string → Z → option Discover.t;
  axios_get_movie : nat → N → option MovieData.t;
  Date_now : nat → Z
}.

Section Fetch.
Context {runtime : Runtime}.

(** [new Date(movie.release_date)] as a time value; an absent date gives
    an invalid one. *)
Definition new_Date (d : option string) : option Z :=
  match d with
  | Some s => Date_parse s
  | None => None
  end.

(** The callback of line 122:
    [movie.release_date && !isNaN(new Date(movie.release_date))]. *)
Definition validResult (movie : Movie.t) : bool :=
  truthy (Movie.release_date movie) &&
  bool_decide (is_Some (new_Date (Movie.release_date movie))).

(** The [do ... while] of lines 112-126 inside its [try]. The first
    component lists the pages requested, in order; the second is
    [Some allResults] when the loop ends and [None] when a request throws.
    [fuel] bounds the iterations that follow this one; the loop leaves by
    its own condition when [NUM_PAGES - page <= fuel]. *)
Fixpoint doWhile (w : World) (genreCombination : string) (fuel : nat)
    (page : Z) (allResults : list Movie.t) : list Z * option (list Movie.t) :=
  match axios_get_discover w genreCombination page with
  | None => ([page], None)
  | Some response =>
      let totalPages := Discover.total_pages response in
      let validResults := List.filter validResult (Discover.results response) in
      let allResults := allResults ++ validResults in
      let page' := page + 1 in
      if (page' <=? NUM_PAGES) && (page' <=? totalPages) then
        match fuel with
        | S fuel' =>
            let '(requested, completion) :=
              doWhile w genreCombination fuel' page' allResults in
            (page :: requested, completion)
        | O => ([page], Some allResults)
        end
      else ([page], Some allResults)
  end.

(** The condition of line 126 once page [p] has been fetched: the request
    was answered and the next page is within both bounds. *)
Definition continues (w : World) (genreCombination : string) (p : Z) : Prop :=
  ∃ response,
    axios_get_discover w genreCombination p = Some response ∧
    p + 1 ≤ NUM_PAGES ∧ p + 1 ≤ Discover.total_pages response.

(** What page [p] adds to [allResults] (lines 122-123). *)
Definition validResultsOf (w : World) (genreCombination : string) (p : Z)
    : list Movie.t :=
  match axios_get_discover w genreCombination p with
  | Some response => List.filter validResult (Discover.results response)
  | None => []
  end.

(** Lines 106-133: the pages requested and the array returned; the
    [catch] returns a fresh empty array. *)
Definition fetchMoviesForCombination (w : World) (genreCombination : string)
    : list Z * list Movie.t :=
  let '(requested, completion) :=
    doWhile w genreCombination (Z.to_nat (NUM_PAGES - 1)) 1 [] in
  (requested, match completion with
              | Some allResults => allResults
              | None => []
              end).

(** The comparator of line 143, [None] for NaN. *)
Definition compareFn (a b : Movie.t) : option Z :=
  match new_Date (Movie.release_date b), new_Date (Movie.release_date a) with
  | Some tb, Some ta => Some (tb - ta)
  | _, _ => None
  end.

(** [Array.prototype.sort(comparefn)]: a stable sort that reads a NaN
    from the comparator as 0. An element is moved behind the elements
    that the comparator puts strictly before it. *)
Definition sortCompare {A} (comparefn : A → A → option Z) (x y : A) : Z :=
  default 0 (comparefn x y).

Fixpoint sortInsert {A} (comparefn : A → A → option Z) (x : A) (l : list A)
    : list A :=
  match l with
  | [] => [x]
  | y :: l' =>
      if 0 <? sortCompare comparefn x y then y :: sortInsert comparefn x l'
      else x :: l
  end.

Definition Array_sort {A} (comparefn : A → A → option Z) (l : list A) : list A :=
  foldr (sortInsert comparefn) [] l.

(** The array [fetchMovies] has filled when its loop ends (lines 136-141). *)
Definition combinedResults (w : World) : list Movie.t :=
  concat (map (λ combination, snd (fetchMoviesForCombination w combination))
              GENRE_COMBINATIONS).

(** Lines 135-146. *)
Definition fetchMovies (w : World) : list Movie.t :=
  Array_sort compareFn (combinedResults w).

End Fetch.

(** Lines 148-157. *)
Definition fetchMovieMetadata (w : World) (k : nat) (movieId : N) : MovieData.t :=
  match axios_get_movie w k movieId with
  | Some data => data
  | None => MovieData.failed
  end.

(** ** One run of [updateCatalogAndMetaCache] (lines 159-183)

    The function suspends at three [await]s; between two of them the event
    loop runs it without interruption, and any handler that runs does so
    while it is suspended. [Pc] says where a run is suspended:
    at [await fetchMovies()] (line 162), at [await fetchMovieMetadata(..)]
    for the [k]-th entry [movie] of [results] with [rest] still to come
    (line 171), at [await saveCache()] (line 178), or not at all any more.
    The [await]s inside [fetchMovies] and [saveCache] leave both variables
    alone and count with the [await] of the call. Nothing in the body
    throws: [fetchMoviesForCombination], [fetchMovieMetadata] and
    [saveCache] catch their own errors. *)
Inductive Pc :=
| AwaitFetchMovies
| AwaitFetchMovieMetadata (k : nat) (movie : Movie.t) (rest : list Movie.t)
| AwaitSaveCache
| Returned.

(** Where [for (const movie of results)] suspends next, [k] entries done. *)
Definition forOf (k : nat) (remaining : list Movie.t) : Pc :=
  match remaining with
  | movie :: rest => AwaitFetchMovieMetadata k movie rest
  | [] => AwaitSaveCache
  end.

(** Line 172: [metaCache[movieId] = { timestamp: Date.now(), data: movieData }]. *)
Definition assignMeta (w : World) (k : nat) (movie : Movie.t) (st : Store) : Store :=
  {| catalogCache := catalogCache st;
     metaCache :=
       <[propertyKey (Movie.id movie) :=
           {| MetaEntry.timestamp := Date_now w (S k);
              MetaEntry.data := fetchMovieMetadata w k (Movie.id movie) |}]>
         (metaCache st) |}.

Section Refresh.
Context {runtime : Runtime}.

(** Line 163: [catalogCache = { timestamp: Date.now(), data: results }]. *)
Definition assignCatalog (w : World) (results : list Movie.t) (st : Store) : Store :=
  {| catalogCache :=
       {| CatalogCache.timestamp := Some (Date_now w 0);
          CatalogCache.data := Some results |};
     metaCache := metaCache st |}.

(** The segment that runs when the pending [await] of a run settles: the
    store it leaves and where the run suspends next. [saveCache] writes
    both caches to disk and catches its own errors; it does not touch the
    variables. *)
Definition resume (w : World) (st : Store) (pc : Pc) : Store * Pc :=
  match pc with
  | AwaitFetchMovies =>
      let results := fetchMovies w in
      (assignCatalog w results st, forOf 0 results)
  | AwaitFetchMovieMetadata k movie rest =>
      (assignMeta w k movie st, forOf (S k) rest)
  | AwaitSaveCache => (st, Returned)
  | Returned => (st, Returned)
  end.

(** The run after [n] of its segments. *)
Definition runAfter (w : World) (st : Store) (n : nat) : Store * Pc :=
  Nat.iter n (λ s, resume w (fst s) (snd s)) (st, AwaitFetchMovies).

(** What a handler reads when it runs after [n] segments of the run. *)
Definition sample (w : World) (st : Store) (n : nat) : Store :=
  fst (runAfter w st n).

(** The number of segments of a run: one per [await]. *)
Definition segments (w : World) : nat := 2 + length (fetchMovies w).

(** The store a run leaves behind when it has returned. *)
Definition updateCatalogAndMetaCache (w : World) (st : Store) : Store :=
  sample w st (segments w).

(** The store after [entries] have been merged into the table of [st],
    in order, as the entries [i], [i + 1], ... of the run; [merged] does
    so for the first [k] entries of [results]. *)
Fixpoint mergedFrom (w : World) (i : nat) (entries : list Movie.t)
    (st : Store) : Store :=
  match entries with
  | [] => st
  | movie :: rest => mergedFrom w (S i) rest (assignMeta w i movie st)
  end.

Definition merged (w : World) (k : nat) (results : list Movie.t) (st : Store)
    : Store :=
  mergedFrom w 0 (take k results) st.

End Refresh.

(** ** Durable storage and start-up (lines 78-94, 256-281) *)

(** What reading and parsing a cache file gives: [readFile] rejects; or
    [JSON.parse] throws; or the file holds the JSON value [null], which
    parses; or it holds a cache object, of the shape [saveCache] writes. *)
Inductive CacheFile (A : Type) :=
| Missing
| Corrupt
| Null
| Parsed (content : A).
Arguments Missing {A}.
Arguments Corrupt {A}.
Arguments Null {A}.
Arguments Parsed {A} content.

Record Disk := {
  catalog_cache_json : CacheFile CatalogCache.t;
  meta_cache_json : CacheFile (gmap string MetaEntry.t)
}.

(** The two variables when [loadCache] has returned; [None] for [null]. *)
Record Loaded := {
  loadedCatalog : option CatalogCache.t;
  loadedMeta : option (gmap string MetaEntry.t)
}.

(** Lines 78-94: each [try] assigns its variable as soon as the file was
    read and parsed, and only logs when [readFile] or [JSON.parse] throws.
    When the file holds [null] the assignment of line 81 (line 89) has
    taken place before the log line 82 (line 90) throws on it, and the
    [catch] only logs: the variable stays [null]. *)
Definition loadCache (disk : Disk) (st : Store) : Loaded :=
  {| loadedCatalog :=
       match catalog_cache_json disk with
       | Parsed content => Some content
       | Null => None
       | Missing | Corrupt => Some (catalogCache st)
       end;
     loadedMeta :=
       match meta_cache_json disk with
       | Parsed content => Some content
       | Null => None
       | Missing | Corrupt => Some (metaCache st)
       end |}.

(** The condition of line 269:
    [!catalogCache.timestamp || Date.now() - catalogCache.timestamp > 24 * 60 * 60 * 1000]. *)
Definition initialRefreshNeeded (now : Z) (cache : CatalogCache.t) : bool :=
  match CatalogCache.timestamp cache with
  | None => true
  | Some timestamp =>
      (timestamp =? 0) || (24 * 60 * 60 * 1000 <? now - timestamp)
  end.

(** ** The process: the store, the runs in flight, the HTTP server

    A run in flight is an invocation of [refreshCache] that has not
    returned; [startup] marks the one [startServer] awaits at line 271.
    [serving] holds once [serveHTTP] has been called (line 280): handlers
    run from then on. *)
Record Run := { startup : bool; pc : Pc }.

Record Process := {
  store : Store;
  serving : bool;
  inflight : list Run
}.

(** What the event loop can do next: the job scheduled at line 266 fires,
    or the pending [await] of the [i]-th run in flight settles. *)
Inductive Event :=
| CronFire
| Settle (i : nat).

(** How [startServer] leaves the process. [Up]: both variables hold
    objects and the process goes on as [Process] describes. [TableNull]:
    [metaCache] is [null] and [catalogCache] is the given object;
    [startServer] goes on as with a table ([awaitsRun] says whether it
    awaits a run), but every later use of [metaCache] throws, and this
    process is not followed further. [Down]: [catalogCache] is [null], the
    read [catalogCache.timestamp] of line 269 throws and [startServer]
    rejects: no run is started and [serveHTTP] is never called. *)
Inductive Startup :=
| Up (p : Process)
| TableNull (catalog : CatalogCache.t) (awaitsRun : bool)
| Down.

Section Server.
Context {runtime : Runtime}.

(** [refreshCache] is entered: it calls [updateCatalogAndMetaCache],
    which suspends at line 162. Nothing is looked at before. *)
Definition refreshCache (isStartup : bool) : Run :=
  {| startup := isStartup; pc := AwaitFetchMovies |}.

(** Lines 256-281, up to the first suspension that the cache decides:
    with a stale cache [startServer] awaits a run and serves afterwards,
    with a fresh one it serves at once. The job of line 266 is registered
    either way. *)
Definition startServer (disk : Disk) (now : Z) : Startup :=
  let loaded := loadCache disk initialStore in
  match loadedCatalog loaded, loadedMeta loaded with
  | None, _ => Down
  | Some catalog, None => TableNull catalog (initialRefreshNeeded now catalog)
  | Some catalog, Some table =>
      let st := {| catalogCache := catalog; metaCache := table |} in
      if initialRefreshNeeded now catalog then
        Up {| store := st; serving := false; inflight := [refreshCache true] |}
      else
        Up {| store := st; serving := true; inflight := [] |}
  end.

Definition step (w : World) (p : Process) (e : Event) : option Process :=
  match e with
  | CronFire =>
      Some {| store := store p; serving := serving p;
              inflight := inflight p ++ [refreshCache false] |}
  | Settle i =>
      match inflight p !! i with
      | None => None
      | Some run =>
          let '(st, pc') := resume w (store p) (pc run) in
          match pc' with
          | Returned =>
              Some {| store := st;
                      serving := serving p || startup run;
                      inflight := delete i (inflight p) |}
          | _ =>
              Some {| store := st; serving := serving p;
                      inflight :=
                        <[i := {| startup := startup run; pc := pc' |}]>
                          (inflight p) |}
          end
      end
  end.

(** A sequence of events, from left to right; [None] when one of them
    is not enabled. *)
Fixpoint exec (w : World) (p : Process) (events : list Event) : option Process :=
  match events with
  | [] => Some p
  | e :: events' =>
      match step w p e with
      | Some p' => exec w p' events'
      | None => None
      end
  end.

(** The executions in which the job fires only while no run is in flight. *)
Fixpoint firesOnlyWhenIdle (w : World) (p : Process) (events : list Event) : Prop :=
  match events with
  | [] => True
  | e :: events' =>
      (e = CronFire → inflight p = []) ∧
      match step w p e with
      | Some p' => firesOnlyWhenIdle w p' events'
      | None => True
      end
  end.

End Server.

(** ** The request handlers (lines 185-254) *)

(** How a handler ends: it returns a value, or a [TypeError] is thrown and
    the promise it returned is rejected. *)
Inductive Completion (A : Type) :=
| Normal (value : A)
| Throw.
Arguments Normal {A} value.
Arguments Throw {A}.

(** [array.filter(callback)] with a callback that may throw: the callback
    is called on the elements in order and the first throw ends the call. *)
Fixpoint Array_filter {A} (callback : A → Completion bool) (l : list A)
    : Completion (list A) :=
  match l with
  | [] => Normal []
  | x :: l' =>
      match callback x with
      | Throw => Throw
      | Normal keep =>
          match Array_filter callback l' with
          | Throw => Throw
          | Normal kept => Normal (if keep then x :: kept else kept)
          end
      end
  end.

(** An element of [metas] in a catalog response. *)
Module MetaPreview.
Record t := {
  id : string;
  type : string;
  name : option string;
  poster : option string;
  description : string;
  releaseInfo : string
}.
End MetaPreview.

(** The [meta] of a meta response. *)
Module Meta.
Record t := {
  id : string;
  type : string;
  name : string;
  poster : option string;
  background : option string;
  description : string;
  releaseInfo : string;
  genre : list string;
  runtime : string;
  rating : string
}.
End Meta.

(** [path ? `${base}${path}` : null]. *)
Definition imageUrl (base : string) (path : option string) : option string :=
  if truthy path then Some (base +:+ default EmptyString path) else None.

(** [text || fallback]. *)
Definition orElse (text : option string) (fallback : string) : string :=
  if truthy text then default EmptyString text else fallback.

(** [release_date ? release_date.split('-')[0] : 'Unknown']. *)
Definition releaseYear (release_date : option string) : string :=
  if truthy release_date then split_dash_0 (default EmptyString release_date)
  else "Unknown".

(** The callback of lines 199-206. *)
Definition toMetaPreview (item : Movie.t) : MetaPreview.t :=
  {| MetaPreview.id := "tmdb-" +:+ pretty (Movie.id item);
     MetaPreview.type := "movie";
     MetaPreview.name := Movie.title item;
     MetaPreview.poster :=
       imageUrl "https://image.tmdb.org/t/p/w500" (Movie.poster_path item);
     MetaPreview.description :=
       orElse (Movie.overview item) "No description available";
     MetaPreview.releaseInfo := releaseYear (Movie.release_date item) |}.

Section CatalogHandler.
Context {runtime : Runtime}.

(** The callback of lines 193-195: [movie.title.toLowerCase()] throws
    when [movie.title] is [undefined] or [null]. *)
Definition titleIncludes (searchQuery : string) (movie : Movie.t) : Completion bool :=
  match Movie.title movie with
  | None => Throw
  | Some title => Normal (includes (toLowerCase title) (toLowerCase searchQuery))
  end.

(** Lines 185-210; [search] is [args.extra.search], [None] when [args.extra]
    or the property is absent. The result is the [metas] of the response. *)
Definition catalogHandler (cache : CatalogCache.t) (search : option string)
    : Completion (list MetaPreview.t) :=
  let searchQuery := if truthy search then default EmptyString search else EmptyString in
  let results := default [] (CatalogCache.data cache) in
  let filtered :=
    if truthy (Some searchQuery) then Array_filter (titleIncludes searchQuery) results
    else Normal results in
  match filtered with
  | Throw => Throw
  | Normal results => Normal (map toMetaPreview results)
  end.

(** The title of [movie] contains [query] when case is ignored: the
    lower-cased query occurs in the lower-cased title. *)
Definition titleContains (query : string) (movie : Movie.t) : Prop :=
  ∃ title pre post,
    Movie.title movie = Some title ∧
    toLowerCase title = pre +:+ toLowerCase query +:+ post.

End CatalogHandler.

(** The property names every object inherits from [Object.prototype]: a
    read of one of them on [metaCache] gives a function (or the prototype
    itself), which is truthy and has no [data] property. *)
Definition Object_prototype : list string :=
  ["constructor"; "__defineGetter__"; "__defineSetter__"; "hasOwnProperty";
   "__lookupGetter__"; "__lookupSetter__"; "isPrototypeOf";
   "propertyIsEnumerable"; "toString"; "valueOf"; "__proto__";
   "toLocaleString"].

Inductive Property :=
| Own (entry : MetaEntry.t)
| Inherited
| Undefined.

(** [metaCache[id]]. *)
Definition getProperty (table : gmap string MetaEntry.t) (key : string) : Property :=
  match table !! key with
  | Some entry => Own entry
  | None => if bool_decide (key ∈ Object_prototype) then Inherited else Undefined
  end.

(** The object of lines 241-252. *)
Definition toMeta (args_id : string) (movieData : MovieData.t) : Meta.t :=
  {| Meta.id := args_id;
     Meta.type := "movie";
     Meta.name := orElse (MovieData.title movieData) "Unknown Title";
     Meta.poster :=
       imageUrl "https://image.tmdb.org/t/p/w500" (MovieData.poster_path movieData);
     Meta.background :=
       imageUrl "https://image.tmdb.org/t/p/w1280" (MovieData.backdrop_path movieData);
     Meta.description :=
       orElse (MovieData.overview movieData) "No description available";
     Meta.releaseInfo := releaseYear (MovieData.release_date movieData);
     Meta.genre :=
       match MovieData.genres movieData with
       | Some genres => map Genre.name genres
       | None => []
       end;
     Meta.runtime :=
       match MovieData.runtime movieData with
       | Some (Npos minutes) => pretty (Npos minutes) +:+ " min"
       | Some N0 | None => "Unknown"
       end;
     Meta.rating :=
       match MovieData.vote_average movieData with
       | Some vote_average =>
           if (Qnum vote_average =? 0) then "N/A" else toFixed1 vote_average
       | None => "N/A"
       end |}.

(** Lines 212-254; the result is the [meta] of the response, [None] for
    [null]. [args.id.split('-')[1]] is [undefined] when [args.id] has no
    dash, and [undefined] as a property key reads ["undefined"]. *)
Definition metaHandler (table : gmap string MetaEntry.t) (args_id : string)
    : Completion (option Meta.t) :=
  let id := default "undefined" (split "-" args_id !! 1%nat) in
  match getProperty table id with
  | Undefined => Normal None
  | Inherited => Throw
  | Own entry =>
      let movieData := MetaEntry.data entry in
      if truthy (MovieData.error movieData) then Normal None
      else Normal (Some (toMeta args_id movieData))
  end.

(** ** A runtime for closed examples

    Lower-casing of the letters A-Z, and dates of the form YYYY-MM-DD. *)
Definition asciiLower (c : ascii) : ascii :=
  let n := nat_of_ascii c in
  if (65 <=? n)%nat && (n <=? 90)%nat then ascii_of_nat (n + 32) else c.

Fixpoint asciiToLowerCase (s : string) : string :=
  match s with
  | EmptyString => EmptyString
  | String c s' => String (asciiLower c) (asciiToLowerCase s')
  end.

Fixpoint digitsValue (acc : Z) (s : string) : option Z :=
  match s with
  | EmptyString => Some acc
  | String c s' =>
      match Ascii.is_nat c with
      | Some d => digitsValue (10 * acc + Z.of_nat d) s'
      | None => None
      end
  end.

(** Days from 1970-01-01 to the given day of the proleptic Gregorian
    calendar. *)
Definition daysFromCivil (y m d : Z) : Z :=
  let y := if m <=? 2 then y - 1 else y in
  let era := y / 400 in
  let yoe := y - era * 400 in
  let doy := (153 * (if 2 <? m then m - 3 else m + 9) + 2) / 5 + d - 1 in
  let doe := yoe * 365 + yoe / 4 - yoe / 100 + doy in
  era * 146097 + doe - 719468.

Definition isoDateParse (s : string) : option Z :=
  match split "-" s with
  | [yyyy; mm; dd] =>
      match digitsValue 0 yyyy, digitsValue 0 mm, digitsValue 0 dd with
      | Some y, Some m, Some d =>
          if (String.length yyyy =? 4)%nat && (String.length mm =? 2)%nat
             && (String.length dd =? 2)%nat
             && (1 <=? m) && (m <=? 12) && (1 <=? d) && (d <=? 31)
          then Some (daysFromCivil y m d * 86400000)
          else None
      | _, _, _ => None
      end
  | _ => None
  end.

Definition exampleRuntime (numPages : Z) : Runtime :=
  {| NUM_PAGES := numPages;
     toLowerCase := asciiToLowerCase;
     Date_parse := isoDateParse |}.

(** ** Saving (lines 96-104) *)

(** How one [fs.writeFile] ends: the file holds the new text, or the call
    rejects and the file is as it was, or the call rejects after the file
    was truncated and what is left does not parse. *)
Inductive WriteOutcome :=
| Written
| RejectedUntouched
| RejectedTruncated.

(** The file after [fs.writeFile(file, JSON.stringify(content))]; the
    values of the data model are JSON values, which [JSON.parse] gives
    back as they were written. *)
Definition writeFile {A} (outcome : WriteOutcome) (content : A)
    (file : CacheFile A) : CacheFile A :=
  match outcome with
  | Written => Parsed content
  | RejectedUntouched => file
  | RejectedTruncated => Corrupt
  end.

(** Lines 96-104: both writes stand in one [try], so the second is only
    attempted when the first went through; the [catch] logs. *)
Definition saveCache (catalogWrite metaWrite : WriteOutcome) (st : Store)
    (disk : Disk) : Disk :=
  match catalogWrite with
  | Written =>
      {| catalog_cache_json := Parsed (catalogCache st);
         meta_cache_json :=
           writeFile metaWrite (metaCache st) (meta_cache_json disk) |}
  | RejectedUntouched | RejectedTruncated =>
      {| catalog_cache_json :=
           writeFile catalogWrite (catalogCache st) (catalog_cache_json disk);
         meta_cache_json := meta_cache_json disk |}
  end.

(** ** Data for the closed examples *)

Definition listed (id : N) (title : option string) (release_date : string)
    : Movie.t :=
  {| Movie.id := id; Movie.title := title;
     Movie.release_date := Some release_date;
     Movie.poster_path := None; Movie.overview := None |}.

Definition madMax : Movie.t := listed 76341 (Some "Mad Max") "2015-05-13".
Definition ironMan : Movie.t := listed 1726 (Some "Iron Man") "2008-04-30".
Definition untitled : Movie.t := listed 7 None "2020-01-01".

Definition cacheOf (timestamp : Z) (entries : list Movie.t) : CatalogCache.t :=
  {| CatalogCache.timestamp := Some timestamp;
     CatalogCache.data := Some entries |}.

Definition details (title : string) : MovieData.t :=
  {| MovieData.error := None; MovieData.title := Some title;
     MovieData.overview := None; MovieData.poster_path := Some "/p.jpg";
     MovieData.release_date := Some "2008-04-30";
     MovieData.genres := Some [{| Genre.id := 28; Genre.name := "Action" |}];
     MovieData.runtime := Some 126%N; MovieData.vote_average := Some (76 # 10);
     MovieData.backdrop_path := None |}.

(** A remote API for which the first page of the combination "28,12" holds
    [entries] and reports [totalPages] pages and its second page fails; the
    other combinations have the single page [[madMax]]; every movie request
    fails. *)
Definition secondPageFails (entries : list Movie.t) (totalPages : Z) : World :=
  {| axios_get_discover := λ genreCombination page,
       if String.eqb genreCombination "28,12" then
         if page =? 1 then
           Some {| Discover.results := entries; Discover.total_pages := totalPages |}
         else None
       else Some {| Discover.results := [madMax]; Discover.total_pages := 1 |};
     axios_get_movie := λ _ _, None;
     Date_now := λ k, 1700000000000 + Z.of_nat k |}.

(** A remote API that lists [entries] on every page of the combination
    "28,12", nothing for the others, reports [totalPages] pages throughout
    and answers every movie request with [details]. *)
Definition steadyListing (entries : list Movie.t) (totalPages : Z) : World :=
  {| axios_get_discover := λ genreCombination _,
       Some {| Discover.results :=
                 if String.eqb genreCombination "28,12" then entries else [];
               Discover.total_pages := totalPages |};
     axios_get_movie := λ _ _, Some (details "Iron Man");
     Date_now := λ k, 1700000000000 + Z.of_nat k |}.

(** A table from an earlier run: an entry for a movie that is no longer
    listed and an entry for one that still is. *)
Definition earlierTable : gmap string MetaEntry.t :=
  {[ "99" := {| MetaEntry.timestamp := 1600000000000;
                MetaEntry.data := details "Gone" |};
     "1726" := {| MetaEntry.timestamp := 1600000000000;
                  MetaEntry.data := MovieData.failed |} ]}.

Definition earlierStore : Store :=
  {| catalogCache := cacheOf 1600000000000 [madMax]; metaCache := earlierTable |}.

(** Cache files written less than a day before [1700000000000]. *)
Definition freshDisk : Disk :=
  {| catalog_cache_json := Parsed (cacheOf 1699999000000 []);
     meta_cache_json := Parsed ∅ |}.

Definition noDisk : Disk :=
  {| catalog_cache_json := Missing; meta_cache_json := Corrupt |}.

(** A catalog file that holds the text [null]. *)
Definition nullDisk : Disk :=
  {| catalog_cache_json := Null; meta_cache_json := Missing |}.

(** A remote API that is down: every request is rejected. *)
Definition outage : World :=
  {| axios_get_discover := λ _ _, None;
     axios_get_movie := λ _ _, None;
     Date_now := λ k, 1700000000000 + Z.of_nat k |}.

(** * Properties *)

(** ** Strings and numerals *)

Lemma startsWith_spec (s q : string) :
  startsWith s q = true ↔ ∃ post, s = q +:+ post.
Proof.
  revert s. induction q as [|c q IH]; intros s.
  - split; [intros _; by exists s | by destruct s].
  - destruct s as [|d s]; simpl.
    + split; [done | intros [post Hpost]; discriminate].
    + destruct (Ascii.eqb_spec c d) as [->|Hne].
      * rewrite IH. split; intros [post Hpost]; exists post.
        -- by rewrite Hpost.
        -- by injection Hpost.
      * split; [done | intros [post Hpost]; injection Hpost; congruence].
Qed.

Lemma includes_spec (s q : string) :
  includes s q = true ↔ ∃ pre post, s = pre +:+ q +:+ post.
Proof.
  induction s as [|d s IH].
  - cbn [includes]. rewrite orb_false_r, startsWith_spec. split.
    + intros [post Hpost]. by exists EmptyString, post.
    + intros [pre [post Hs]]. destruct pre; [by exists post | discriminate].
  - cbn [includes]. rewrite orb_true_iff, IH, startsWith_spec. split.
    + intros [[post Hpost]|[pre [post Hs]]].
      * by exists EmptyString, post.
      * exists (String d pre), post. by rewrite Hs.
    + intros [pre [post Hs]]. destruct pre as [|c pre].
      * left. by exists post.
      * right. exists pre, post. by injection Hs.
Qed.

Lemma digit_not_dash (c : ascii) :
  is_Some (Ascii.is_nat c) → Ascii.eqb c "-" = false.
Proof.
  intros [n Hn]. destruct (Ascii.eqb_spec c "-") as [->|]; [discriminate | done].
Qed.

Lemma split_allDigits (s : string) :
  allDigits s = true → split "-" s = [s].
Proof.
  induction s as [|c s IH]; [done|].
  cbn [allDigits split]. intros [Hc Hs]%andb_true_iff.
  apply bool_decide_eq_true in Hc.
  by rewrite (digit_not_dash c Hc), (IH Hs).
Qed.

Lemma pretty_N_go_allDigits (x : N) (s : string) :
  allDigits s = true → allDigits (pretty_N_go x s) = true.
Proof.
  revert s. induction (N.lt_wf_0 x) as [x _ IH]; intros s Hs.
  destruct (decide (x = 0)%N) as [->|Hx]; [by rewrite pretty_N_go_0|].
  rewrite pretty_N_go_step by lia. apply IH.
  - apply N.div_lt; lia.
  - cbn [allDigits]. rewrite Hs, andb_true_r.
    unfold pretty_N_char. by repeat case_match.
Qed.

Lemma propertyKey_allDigits (movieId : N) : allDigits (propertyKey movieId) = true.
Proof.
  unfold propertyKey, pretty, pretty_N.
  case_decide; [done | by apply pretty_N_go_allDigits].
Qed.

Lemma propertyKey_inj (a b : N) : propertyKey a = propertyKey b → a = b.
Proof. apply (inj pretty). Qed.

Lemma propertyKey_not_inherited (movieId : N) :
  propertyKey movieId ∉ Object_prototype.
Proof.
  intros Hin. pose proof (propertyKey_allDigits movieId) as Hd.
  apply list_elem_of_In in Hin. simpl in Hin.
  repeat (destruct Hin as [Hin|Hin]; [rewrite <- Hin in Hd; discriminate|]).
  done.
Qed.

Lemma split_tmdb_id (movieId : N) :
  split "-" ("tmdb-" +:+ propertyKey movieId) = ["tmdb"; propertyKey movieId].
Proof.
  change (split "-" ("tmdb-" +:+ propertyKey movieId))
    with ("tmdb" :: split "-" (propertyKey movieId)).
  by rewrite (split_allDigits _ (propertyKey_allDigits movieId)).
Qed.

(** ** The catalog handler *)

Section CatalogHandlerFacts.
Context {runtime : Runtime}.

(** The filter callback as a plain predicate, for entries with a title. *)
Let keeps (query : string) (movie : Movie.t) : bool :=
  match Movie.title movie with
  | Some title => includes (toLowerCase title) (toLowerCase query)
  | None => false
  end.

Lemma keeps_spec (query : string) (movie : Movie.t) :
  keeps query movie = true ↔ titleContains query movie.
Proof.
  unfold keeps, titleContains. destruct (Movie.title movie) as [title|].
  - rewrite includes_spec. split.
    + intros (pre & post & Hq). by exists title, pre, post.
    + intros (title' & pre & post & [= <-] & Hq). by exists pre, post.
  - split; [done | by intros (title' & pre & post & ? & _)].
Qed.

Lemma Array_filter_titled (query : string) (entries : list Movie.t) :
  Forall (λ movie, is_Some (Movie.title movie)) entries →
  Array_filter (titleIncludes query) entries
  = Normal (List.filter (keeps query) entries).
Proof.
  induction 1 as [|movie entries [title Htitle] _ IH]; [done|].
  cbn [Array_filter List.filter]. rewrite IH.
  unfold titleIncludes, keeps. rewrite Htitle. by case_match.
Qed.

Lemma Array_filter_throws (query : string) (entries : list Movie.t) :
  Array_filter (titleIncludes query) entries = Throw
  ↔ Exists (λ movie, Movie.title movie = None) entries.
Proof.
  induction entries as [|movie entries IH].
  - split; [done | by intros ?%Exists_nil].
  - rewrite Exists_cons, <- IH. cbn [Array_filter]. unfold titleIncludes at 1.
    destruct (Movie.title movie) as [title|]; [|by split; [left|]].
    destruct (Array_filter _ entries); split; try done.
    + by intros [|].
    + by right.
Qed.

(** C4, as amended. With an empty or absent query the handler returns
    every cached entry, in order, as a summary. With a non-empty query
    [q] and a cache in which every entry has a title it returns, as
    summaries and in order, exactly the entries whose title contains [q]
    when case is ignored. With no cached entries it returns the empty
    sequence, whatever the query. *)
Theorem catalogHandler_search (cache : CatalogCache.t) (search : option string) :
  let entries := default [] (CatalogCache.data cache) in
  (truthy search = false →
     catalogHandler cache search = Normal (map toMetaPreview entries)) ∧
  (∀ q, search = Some q → q ≠ EmptyString →
     Forall (λ movie, is_Some (Movie.title movie)) entries →
     ∃ keep : Movie.t → bool,
       (∀ movie, keep movie = true ↔ titleContains q movie) ∧
       catalogHandler cache search
       = Normal (map toMetaPreview (List.filter keep entries))) ∧
  (entries = [] → catalogHandler cache search = Normal []).
Proof.
  intros entries. unfold catalogHandler. fold entries. split; [|split].
  - intros Hfalsy. rewrite Hfalsy. done.
  - intros q -> Hq Htitled. exists (keeps q). split; [apply keeps_spec|].
    destruct q as [|c q]; [done|]. cbn [truthy default].
    by rewrite Array_filter_titled.
  - intros Hempty. unfold entries in *. rewrite Hempty.
    by destruct (truthy (Some _)).
Qed.

(** C10. For a non-empty query the handler throws exactly when some
    cached entry has no title: the filter callback dereferences
    [movie.title] unguarded. With an empty or absent query the same cache
    is served without error. *)
Theorem catalogHandler_total_iff_titled (cache : CatalogCache.t) :
  let entries := default [] (CatalogCache.data cache) in
  (∀ q, q ≠ EmptyString →
     (catalogHandler cache (Some q) = Throw
      ↔ Exists (λ movie, Movie.title movie = None) entries)) ∧
  (∀ search, truthy search = false →
     catalogHandler cache search = Normal (map toMetaPreview entries)).
Proof.
  intros entries. split.
  - intros q Hq. rewrite <- (Array_filter_throws q). unfold catalogHandler.
    fold entries. destruct q as [|c q]; [done|]. cbn [truthy default].
    by destruct (Array_filter _ entries).
  - intros search Hfalsy. unfold catalogHandler. by rewrite Hfalsy.
Qed.

End CatalogHandlerFacts.

(** The example of the specification: of "Mad Max" and "Iron Man" the query
    "man" selects "Iron Man" only. *)
Example catalogHandler_man :
  @catalogHandler (exampleRuntime 5) (cacheOf 0 [madMax; ironMan]) (Some "man")
  = Normal [toMetaPreview ironMan].
Proof. reflexivity. Qed.

(** C4, as stated, fails on a cache that holds an entry without a title:
    the handler throws instead of returning the matching entries. *)
Lemma catalogHandler_untitled_throws :
  @catalogHandler (exampleRuntime 5) (cacheOf 0 [ironMan; untitled]) (Some "man")
  = Throw.
Proof. reflexivity. Qed.

(** The three cases of [catalogHandler_search] on a cache of two entries. *)
Lemma catalogHandler_search_witness :
  @catalogHandler (exampleRuntime 5) (cacheOf 0 [madMax; ironMan]) None
  = Normal [toMetaPreview madMax; toMetaPreview ironMan]
  ∧ (∃ keep : Movie.t → bool,
       (∀ movie, keep movie = true ↔ @titleContains (exampleRuntime 5) "man" movie) ∧
       @catalogHandler (exampleRuntime 5) (cacheOf 0 [madMax; ironMan]) (Some "man")
       = Normal (map toMetaPreview (List.filter keep [madMax; ironMan])))
  ∧ @catalogHandler (exampleRuntime 5) CatalogCache.empty (Some "man") = Normal [].
Proof.
  split; [|split].
  - destruct (@catalogHandler_search (exampleRuntime 5)
                (cacheOf 0 [madMax; ironMan]) None) as (Hall & _ & _).
    apply Hall. reflexivity.
  - destruct (@catalogHandler_search (exampleRuntime 5)
                (cacheOf 0 [madMax; ironMan]) (Some "man")) as (_ & Hsome & _).
    apply (Hsome "man").
    + reflexivity.
    + discriminate.
    + repeat constructor; eexists; reflexivity.
  - destruct (@catalogHandler_search (exampleRuntime 5)
                CatalogCache.empty (Some "man")) as (_ & _ & Hnone).
    apply Hnone. reflexivity.
Defined.

(** [catalogHandler_total_iff_titled] on a cache with an entry without title. *)
Lemma catalogHandler_total_iff_titled_witness :
  @catalogHandler (exampleRuntime 5) (cacheOf 0 [ironMan; untitled]) (Some "man") = Throw
  ∧ @catalogHandler (exampleRuntime 5) (cacheOf 0 [ironMan; untitled]) (Some EmptyString)
    = Normal [toMetaPreview ironMan; toMetaPreview untitled].
Proof.
  destruct (@catalogHandler_total_iff_titled (exampleRuntime 5)
              (cacheOf 0 [ironMan; untitled])) as (Hthrow & Hserved).
  split.
  - apply (Hthrow "man").
    + discriminate.
    + apply Exists_cons_tl, Exists_cons_hd. reflexivity.
  - apply (Hserved (Some EmptyString)). reflexivity.
Defined.

(** ** The meta handler *)

Lemma getProperty_not_inherited (table : gmap string MetaEntry.t) (key : string) :
  key ∉ Object_prototype →
  getProperty table key
  = match table !! key with
    | Some entry => Own entry
    | None => Undefined
    end.
Proof.
  intros Hkey. unfold getProperty. destruct (table !! key); [done|].
  by rewrite bool_decide_eq_false_2.
Qed.

(** The handler on any [args.id] whose second piece is not a name
    inherited from [Object.prototype]. *)
Lemma metaHandler_not_inherited (table : gmap string MetaEntry.t) (args_id : string) :
  default "undefined" (split "-" args_id !! 1%nat) ∉ Object_prototype →
  metaHandler table args_id
  = match table !! default "undefined" (split "-" args_id !! 1%nat) with
    | None => Normal None
    | Some entry =>
        if truthy (MovieData.error (MetaEntry.data entry)) then Normal None
        else Normal (Some (toMeta args_id (MetaEntry.data entry)))
    end.
Proof.
  intros Hkey. unfold metaHandler. rewrite (getProperty_not_inherited _ _ Hkey).
  by destruct (table !! _).
Qed.

Lemma metaHandler_id (table : gmap string MetaEntry.t) (movieId : N) :
  metaHandler table ("tmdb-" +:+ propertyKey movieId)
  = match table !! propertyKey movieId with
    | None => Normal None
    | Some entry =>
        if truthy (MovieData.error (MetaEntry.data entry)) then Normal None
        else Normal (Some (toMeta ("tmdb-" +:+ propertyKey movieId)
                                  (MetaEntry.data entry)))
    end.
Proof.
  rewrite metaHandler_not_inherited; rewrite split_tmdb_id;
    change (default "undefined" (["tmdb"; propertyKey movieId] !! 1%nat))
      with (propertyKey movieId);
    [done | apply propertyKey_not_inherited].
Qed.

(** C6. With [key] the piece of [args.id] after its first dash: when the
    table holds a record under [key] that is the failure marker of
    [fetchMovieMetadata], the handler answers [null]; when it holds a
    response body (no [error] property), the handler answers the display
    view: the id as it came, the type "movie", the title or "Unknown
    Title", the poster and background URLs built from the path fragments,
    the overview or a placeholder, the year of the release date or
    "Unknown", the genre names, the runtime with " min" or "Unknown", the
    vote with one decimal or "N/A". When the table holds nothing under
    [key], the handler answers the same [null] as long as [key] is not a
    name inherited from [Object.prototype], which no numeral is; when
    [key] is such a name the handler throws instead of answering
    [null]. *)
Theorem metaHandler_absent_or_view (table : gmap string MetaEntry.t)
    (args_id key : string) :
  key = default "undefined" (split "-" args_id !! 1%nat) →
  (∀ entry, table !! key = Some entry →
     MetaEntry.data entry = MovieData.failed →
     metaHandler table args_id = Normal None) ∧
  (∀ entry movieData, table !! key = Some entry →
     movieData = MetaEntry.data entry →
     truthy (MovieData.error movieData) = false →
     metaHandler table args_id
     = Normal (Some
         {| Meta.id := args_id;
            Meta.type := "movie";
            Meta.name :=
              match MovieData.title movieData with
              | Some (String c title) => String c title
              | _ => "Unknown Title"
              end;
            Meta.poster :=
              match MovieData.poster_path movieData with
              | Some (String c path) =>
                  Some ("https://image.tmdb.org/t/p/w500" +:+ String c path)
              | _ => None
              end;
            Meta.background :=
              match MovieData.backdrop_path movieData with
              | Some (String c path) =>
                  Some ("https://image.tmdb.org/t/p/w1280" +:+ String c path)
              | _ => None
              end;
            Meta.description :=
              match MovieData.overview movieData with
              | Some (String c overview) => String c overview
              | _ => "No description available"
              end;
            Meta.releaseInfo :=
              match MovieData.release_date movieData with
              | Some (String c date) =>
                  default EmptyString (split "-" (String c date) !! 0%nat)
              | _ => "Unknown"
              end;
            Meta.genre :=
              match MovieData.genres movieData with
              | Some genres => map Genre.name genres
              | None => []
              end;
            Meta.runtime :=
              match MovieData.runtime movieData with
              | Some (Npos minutes) => pretty (Npos minutes) +:+ " min"
              | _ => "Unknown"
              end;
            Meta.rating :=
              match MovieData.vote_average movieData with
              | Some vote =>
                  if Qnum vote =? 0 then "N/A" else toFixed1 vote
              | None => "N/A"
              end |})) ∧
  (table !! key = None → key ∉ Object_prototype →
     metaHandler table args_id = Normal None) ∧
  (table !! key = None → key ∈ Object_prototype →
     metaHandler table args_id = Throw) ∧
  (∀ movieId : N, args_id = "tmdb-" +:+ propertyKey movieId →
     key = propertyKey movieId ∧ key ∉ Object_prototype) ∧
  (∀ w k movieId, axios_get_movie w k movieId = None →
     fetchMovieMetadata w k movieId = MovieData.failed).
Proof.
  intros ->. unfold metaHandler, getProperty.
  split; [|split; [|split; [|split; [|split]]]].
  - intros entry -> Hfailed. by rewrite Hfailed.
  - intros entry movieData -> -> Hok. rewrite Hok. do 2 f_equal.
    unfold toMeta, orElse, imageUrl, releaseYear, split_dash_0.
    f_equal.
    all: try by (repeat case_match; simplify_eq).
    destruct (MovieData.release_date _) as [[|c date]|]; [done| |done].
    cbn [truthy default id]. by destruct (split "-" (String c date)).
  - intros -> Hkey. by rewrite bool_decide_eq_false_2.
  - intros -> Hkey. by rewrite bool_decide_eq_true_2.
  - intros movieId ->. rewrite split_tmdb_id. split; [done|].
    apply propertyKey_not_inherited.
  - intros w k movieId Hnone. unfold fetchMovieMetadata. by rewrite Hnone.
Qed.

(** [metaHandler_absent_or_view] for the id [tmdb-1726] on a table with no
    entry, a failure marker and a response body, and for the id
    [tmdb-constructor] on the empty table. *)
Lemma metaHandler_absent_or_view_witness :
  metaHandler ∅ "tmdb-1726" = Normal None
  ∧ metaHandler
      {[ "1726" := {| MetaEntry.timestamp := 5; MetaEntry.data := MovieData.failed |} ]}
      "tmdb-1726" = Normal None
  ∧ metaHandler
      {[ "1726" := {| MetaEntry.timestamp := 5; MetaEntry.data := details "Iron Man" |} ]}
      "tmdb-1726"
    = Normal (Some
        {| Meta.id := "tmdb-1726"; Meta.type := "movie"; Meta.name := "Iron Man";
           Meta.poster := Some "https://image.tmdb.org/t/p/w500/p.jpg";
           Meta.background := None;
           Meta.description := "No description available";
           Meta.releaseInfo := "2008"; Meta.genre := ["Action"];
           Meta.runtime := "126 min"; Meta.rating := "7.6" |})
  ∧ metaHandler ∅ "tmdb-constructor" = Throw.
Proof.
  split; [|split; [|split]].
  - destruct (metaHandler_absent_or_view ∅ "tmdb-1726" "1726" eq_refl)
      as (_ & _ & Hmissing & _).
    apply Hmissing; [reflexivity|].
    destruct (metaHandler_absent_or_view ∅ "tmdb-1726" "1726" eq_refl)
      as (_ & _ & _ & _ & Hnumeral & _).
    apply (Hnumeral 1726%N). reflexivity.
  - destruct (metaHandler_absent_or_view
                {[ "1726" := {| MetaEntry.timestamp := 5;
                                MetaEntry.data := MovieData.failed |} ]}
                "tmdb-1726" "1726" eq_refl) as (Hfailed & _).
    apply (Hfailed {| MetaEntry.timestamp := 5; MetaEntry.data := MovieData.failed |});
      reflexivity.
  - destruct (metaHandler_absent_or_view
                {[ "1726" := {| MetaEntry.timestamp := 5;
                                MetaEntry.data := details "Iron Man" |} ]}
                "tmdb-1726" "1726" eq_refl) as (_ & Hview & _).
    apply (Hview {| MetaEntry.timestamp := 5; MetaEntry.data := details "Iron Man" |}
             (details "Iron Man")); reflexivity.
  - destruct (metaHandler_absent_or_view ∅ "tmdb-constructor" "constructor" eq_refl)
      as (_ & _ & _ & Hthrow & _).
    apply Hthrow; [reflexivity|].
    apply list_elem_of_In. left. reflexivity.
Defined.

(** The view the handler answers for a stored response body. *)
Example metaHandler_view :
  toMeta "tmdb-1726" (details "Iron Man")
  = {| Meta.id := "tmdb-1726"; Meta.type := "movie"; Meta.name := "Iron Man";
       Meta.poster := Some "https://image.tmdb.org/t/p/w500/p.jpg";
       Meta.background := None;
       Meta.description := "No description available";
       Meta.releaseInfo := "2008"; Meta.genre := ["Action"];
       Meta.runtime := "126 min"; Meta.rating := "7.6" |}.
Proof. reflexivity. Qed.

(** An id whose suffix names a property of [Object.prototype] is outside
    the ids the add-on hands out; the lookup finds the inherited property
    and the handler throws. *)
Example metaHandler_inherited : metaHandler ∅ "tmdb-constructor" = Throw.
Proof. reflexivity. Qed.

(** ** Pagination *)

Section FetchFacts.
Context {runtime : Runtime}.

Lemma validResult_spec (movie : Movie.t) :
  validResult movie = true
  ↔ ∃ date, Movie.release_date movie = Some date ∧ date ≠ EmptyString ∧
            is_Some (Date_parse date).
Proof.
  unfold validResult. rewrite andb_true_iff, bool_decide_eq_true.
  destruct (Movie.release_date movie) as [[|c date]|]; simpl; split.
  - by intros [? _].
  - by intros (date & [= <-] & ? & _).
  - intros [_ Hparse]. by exists (String c date).
  - by intros (date' & [= <-] & _ & Hparse).
  - by intros [? _].
  - by intros (date & ? & _).
Qed.

Lemma Forall_validResult_filter (l : list Movie.t) :
  Forall (λ movie, validResult movie = true) (List.filter validResult l).
Proof.
  apply Forall_forall. intros movie Hin.
  apply list_elem_of_In, filter_In in Hin. tauto.
Qed.

Lemma doWhile_unfold (w : World) (g : string) (fuel : nat) (page : Z)
    (allResults : list Movie.t) :
  doWhile w g fuel page allResults
  = match axios_get_discover w g page with
    | None => ([page], None)
    | Some response =>
        let allResults :=
          allResults ++ List.filter validResult (Discover.results response) in
        if (page + 1 <=? NUM_PAGES) && (page + 1 <=? Discover.total_pages response)
        then
          match fuel with
          | S fuel' =>
              let '(requested, completion) :=
                doWhile w g fuel' (page + 1) allResults in
              (page :: requested, completion)
          | O => ([page], Some allResults)
          end
        else ([page], Some allResults)
    end.
Proof. by destruct fuel. Qed.

Lemma continues_decide (w : World) (g : string) (page : Z) (response : Discover.t) :
  axios_get_discover w g page = Some response →
  (page + 1 <=? NUM_PAGES) && (page + 1 <=? Discover.total_pages response) = true
  ↔ continues w g page.
Proof.
  intros Hget. rewrite andb_true_iff, !Z.leb_le. unfold continues. split.
  - intros [??]. by exists response.
  - intros (response' & Hget' & ? & ?). by simplify_eq.
Qed.

(** What holds of the loop from any of its iterations on: it requests
    consecutive pages, goes on exactly while the condition of line 126
    holds, and leaves with everything gathered unless the last request
    throws. *)
Let shape (w : World) (g : string) (page : Z) (allResults : list Movie.t)
    (outcome : list Z * option (list Movie.t)) : Prop :=
  ∃ n, 0 < n ∧
    fst outcome = seqZ page n ∧
    (∀ p, page ≤ p < page + n - 1 → continues w g p) ∧
    ¬ continues w g (page + n - 1) ∧
    snd outcome
    = match axios_get_discover w g (page + n - 1) with
      | Some _ =>
          Some (allResults ++ concat (map (validResultsOf w g) (seqZ page n)))
      | None => None
      end.

Lemma shape_throw (w : World) (g : string) (page : Z) (allResults : list Movie.t) :
  axios_get_discover w g page = None →
  shape w g page allResults ([page], None).
Proof.
  intros Hget. exists 1. replace (page + 1 - 1) with page by lia. rewrite Hget.
  split; [lia|]. split; [done|]. split; [intros p ?; lia|]. split; [|done].
  intros (response & ? & _). congruence.
Qed.

Lemma shape_stop (w : World) (g : string) (page : Z) (allResults : list Movie.t)
    (response : Discover.t) :
  axios_get_discover w g page = Some response →
  (page + 1 <=? NUM_PAGES) && (page + 1 <=? Discover.total_pages response) = false →
  shape w g page allResults
    ([page],
     Some (allResults ++ List.filter validResult (Discover.results response))).
Proof.
  intros Hget Hcond. exists 1. replace (page + 1 - 1) with page by lia.
  rewrite Hget.
  split; [lia|]. split; [done|]. split; [intros p ?; lia|]. split.
  - intros Hgo. apply (continues_decide w g page response Hget) in Hgo.
    congruence.
  - cbn [snd]. rewrite (seqZ_cons page 1), (seqZ_nil _ (Z.pred 1)) by lia.
    cbn [map concat]. unfold validResultsOf. by rewrite Hget, app_nil_r.
Qed.

Lemma doWhile_shape (w : World) (g : string) (fuel : nat) :
  ∀ (page : Z) (allResults : list Movie.t),
    NUM_PAGES - page ≤ Z.of_nat fuel →
    shape w g page allResults (doWhile w g fuel page allResults).
Proof.
  induction fuel as [|fuel IH]; intros page allResults Hfuel;
    rewrite doWhile_unfold;
    (destruct (axios_get_discover w g page) as [response|] eqn:Hget;
     [|by apply shape_throw]);
    cbv zeta;
    (destruct ((page + 1 <=? NUM_PAGES)
               && (page + 1 <=? Discover.total_pages response)) eqn:Hcond;
     [|by apply shape_stop]).
  - apply andb_true_iff in Hcond as [?%Z.leb_le _]. lia.
  - assert (NUM_PAGES - (page + 1) ≤ Z.of_nat fuel) as Hfuel'.
    { clear -Hfuel. lia. }
    destruct (IH (page + 1)
                (allResults ++ List.filter validResult (Discover.results response))
                Hfuel')
      as (n & Hn & Hreq & Hbefore & Hlast & Hres).
    destruct (doWhile w g fuel (page + 1) _) as [requested completion].
    cbn [fst snd] in *. exists (n + 1).
    replace (page + (n + 1) - 1) with (page + 1 + n - 1) by lia.
    split; [lia|]. split; [|split; [|split; [done|]]].
    + rewrite (seqZ_cons page) by lia.
      replace (Z.succ page) with (page + 1) by lia.
      replace (Z.pred (n + 1)) with n by lia. by rewrite Hreq.
    + intros p Hp. destruct (decide (p = page)) as [->|].
      * by apply (continues_decide w g page response Hget).
      * apply Hbefore. lia.
    + rewrite Hres. destruct (axios_get_discover w g (page + 1 + n - 1)); [|done].
      rewrite (seqZ_cons page (n + 1)) by lia. cbn [map concat].
      replace (Z.succ page) with (page + 1) by lia.
      replace (Z.pred (n + 1)) with n by lia.
      unfold validResultsOf at 2. by rewrite Hget, app_assoc.
Qed.

Lemma fetchMoviesForCombination_eq (w : World) (g : string) :
  fetchMoviesForCombination w g
  = (fst (doWhile w g (Z.to_nat (NUM_PAGES - 1)) 1 []),
     default [] (snd (doWhile w g (Z.to_nat (NUM_PAGES - 1)) 1 []))).
Proof.
  unfold fetchMoviesForCombination.
  by destruct (doWhile w g _ 1 []) as [requested [allResults|]].
Qed.

Lemma Forall_validResultsOf (w : World) (g : string) (pages : list Z) :
  Forall (λ movie, validResult movie = true)
         (concat (map (validResultsOf w g) pages)).
Proof.
  induction pages as [|p pages IH]; [done|].
  cbn [map concat]. apply Forall_app. split; [|done].
  unfold validResultsOf. destruct (axios_get_discover w g p); [|done].
  apply Forall_validResult_filter.
Qed.

Lemma fetchMoviesForCombination_valid (w : World) (g : string) :
  Forall (λ movie, validResult movie = true) (snd (fetchMoviesForCombination w g)).
Proof.
  rewrite fetchMoviesForCombination_eq. cbn [snd].
  destruct (doWhile_shape w g (Z.to_nat (NUM_PAGES - 1)) 1 [] ltac:(lia))
    as (n & _ & _ & _ & _ & ->).
  destruct (axios_get_discover w g (1 + n - 1)); [|done].
  apply Forall_validResultsOf.
Qed.

(** C9, as amended. Every entry [fetchMoviesForCombination] returns has
    a release date that is present and parses. The pages it requests are
    1, 2, ..., n for some n >= 1: page 1 always, and page p + 1 exactly
    when page p was answered with [p + 1 <= NUM_PAGES] and
    [p + 1 <= total_pages]. When every request is answered and reports
    the same number of pages, these are the pages 1 through
    [max 1 (min NUM_PAGES total_pages)], and the result is what these
    pages hold, in order, without the entries whose date is missing or
    does not parse. *)
Theorem fetchMoviesForCombination_pages (w : World) (g : string) :
  (∀ movie, movie ∈ snd (fetchMoviesForCombination w g) →
     ∃ date, Movie.release_date movie = Some date ∧ date ≠ EmptyString ∧
             is_Some (Date_parse date)) ∧
  (∃ n, 0 < n ∧
     fst (fetchMoviesForCombination w g) = seqZ 1 n ∧
     (∀ p, 1 ≤ p < n → continues w g p) ∧
     ¬ continues w g n) ∧
  (∀ totalPages,
     (∀ p, 1 ≤ p ≤ Z.max 1 (Z.min NUM_PAGES totalPages) →
        ∃ response, axios_get_discover w g p = Some response ∧
                    Discover.total_pages response = totalPages) →
     fetchMoviesForCombination w g
     = (seqZ 1 (Z.max 1 (Z.min NUM_PAGES totalPages)),
        concat (map (validResultsOf w g)
                    (seqZ 1 (Z.max 1 (Z.min NUM_PAGES totalPages)))))).
Proof.
  split; [|split].
  - intros movie Hin. apply validResult_spec.
    pose proof (fetchMoviesForCombination_valid w g) as Hvalid.
    rewrite Forall_forall in Hvalid. by apply Hvalid.
  - rewrite fetchMoviesForCombination_eq. cbn [fst].
    destruct (doWhile_shape w g (Z.to_nat (NUM_PAGES - 1)) 1 [] ltac:(lia))
      as (n & Hn & Hreq & Hbefore & Hlast & _).
    exists n. replace (1 + n - 1) with n in Hlast by lia.
    repeat split; [done.. | | done]. intros p Hp. apply Hbefore. lia.
  - intros totalPages Hanswered. rewrite fetchMoviesForCombination_eq.
    destruct (doWhile_shape w g (Z.to_nat (NUM_PAGES - 1)) 1 [] ltac:(lia))
      as (n & Hn & Hreq & Hbefore & Hlast & Hres).
    replace (1 + n - 1) with n in * by lia.
    assert (n = Z.max 1 (Z.min NUM_PAGES totalPages)) as Hpages.
    { assert (n ≤ Z.max 1 (Z.min NUM_PAGES totalPages)) as Hle.
      { destruct (decide (n ≤ Z.max 1 (Z.min NUM_PAGES totalPages)))
          as [|Hgt]; [done|].
        destruct (Hbefore (n - 1) ltac:(lia)) as (response & Hget & ? & ?).
        destruct (Hanswered (Z.max 1 (Z.min NUM_PAGES totalPages)) ltac:(lia))
          as (response' & Hget' & Htotal').
        destruct (Hbefore (Z.max 1 (Z.min NUM_PAGES totalPages)) ltac:(lia))
          as (response'' & Hget'' & ? & ?).
        simplify_eq. lia. }
      destruct (Hanswered n ltac:(lia)) as (response & Hget & Htotal).
      destruct (decide (n + 1 ≤ NUM_PAGES ∧ n + 1 ≤ totalPages)) as [[??]|Hstop].
      - destruct Hlast. exists response. by rewrite Htotal.
      - lia. }
    rewrite Hreq, Hres, <- Hpages.
    destruct (Hanswered n ltac:(lia)) as (response & -> & _). done.
Qed.

End FetchFacts.

(** C9, as stated, fails when [min NUM_PAGES total_pages] is below 1: page
    1 is requested before the condition is looked at, with five pages
    allowed and a listing that reports no page, and likewise with no page
    allowed and a listing of three. *)
Lemma fetchMoviesForCombination_first_page_always :
  ((∀ p, ∃ response,
      axios_get_discover (steadyListing [] 0) "28,12" p = Some response ∧
      Discover.total_pages response = 0) ∧
   fst (fetchMoviesForCombination (runtime := exampleRuntime 5)
          (steadyListing [] 0) "28,12") = [1] ∧
   seqZ 1 (Z.min (NUM_PAGES (Runtime := exampleRuntime 5)) 0) = []) ∧
  ((∀ p, ∃ response,
      axios_get_discover (steadyListing [ironMan] 3) "28,12" p = Some response ∧
      Discover.total_pages response = 3) ∧
   fst (fetchMoviesForCombination (runtime := exampleRuntime 0)
          (steadyListing [ironMan] 3) "28,12") = [1] ∧
   seqZ 1 (Z.min (NUM_PAGES (Runtime := exampleRuntime 0)) 3) = []).
Proof.
  split; (split; [intros p; eexists; split; reflexivity | split; reflexivity]).
Qed.

(** [fetchMoviesForCombination_pages] with two pages allowed and a listing
    of three. *)
Lemma fetchMoviesForCombination_pages_witness :
  (∃ date, Movie.release_date ironMan = Some date ∧ date ≠ EmptyString ∧
           is_Some (isoDateParse date)) ∧
  @fetchMoviesForCombination (exampleRuntime 2) (steadyListing [ironMan; untitled] 3)
    "28,12"
  = ([1; 2], [ironMan; untitled; ironMan; untitled]).
Proof.
  destruct (@fetchMoviesForCombination_pages (exampleRuntime 2)
              (steadyListing [ironMan; untitled] 3) "28,12")
    as (Hvalid & _ & Hsteady).
  split.
  - apply (Hvalid ironMan). apply list_elem_of_In. left. reflexivity.
  - apply (Hsteady 3). intros p _. eexists. split; reflexivity.
Defined.

(** ** Sorting *)

Section SortFacts.
Context {A : Type} (comparefn : A → A → option Z).

Lemma sortInsert_perm (x : A) (l : list A) : sortInsert comparefn x l ≡ₚ x :: l.
Proof.
  induction l as [|y l IH]; [done|]. cbn [sortInsert].
  case_match; [|done]. rewrite IH. apply Permutation_swap.
Qed.

Lemma Array_sort_perm (l : list A) : Array_sort comparefn l ≡ₚ l.
Proof.
  induction l as [|x l IH]; [done|].
  unfold Array_sort in *. cbn [foldr]. by rewrite sortInsert_perm, IH.
Qed.

(** When the comparator is the difference of a key, in the order
    [key y - key x], the sort puts larger keys first and leaves the
    elements of equal key in their order. *)
Context (key : A → Z) (good : A → Prop).
Hypothesis comparefn_key :
  ∀ x y, good x → good y → comparefn x y = Some (key y - key x).

Lemma sortCompare_key (x y : A) :
  good x → good y → sortCompare comparefn x y = key y - key x.
Proof. intros Hx Hy. unfold sortCompare. by rewrite comparefn_key. Qed.

Lemma sortInsert_sorted (x : A) (l : list A) :
  good x → Forall good l →
  StronglySorted (λ a b, key b ≤ key a) l →
  StronglySorted (λ a b, key b ≤ key a) (sortInsert comparefn x l).
Proof.
  intros Hx Hl Hsorted.
  induction l as [|y l IH]; [repeat constructor|].
  apply Forall_cons in Hl as [Hy Hl].
  apply StronglySorted_inv in Hsorted as [Hsorted Hbelow].
  cbn [sortInsert]. rewrite (sortCompare_key x y Hx Hy). destruct (Z.ltb_spec 0 (key y - key x)).
  - constructor; [by apply IH|].
    rewrite sortInsert_perm. constructor; [lia | done].
  - constructor; [by constructor|]. constructor; [lia|].
    eapply Forall_impl; [exact Hbelow|]. intros z Hz. simpl in Hz. lia.
Qed.

Lemma sortInsert_good (x : A) (l : list A) :
  good x → Forall good l → Forall good (sortInsert comparefn x l).
Proof. intros. rewrite sortInsert_perm. by constructor. Qed.

Lemma Array_sort_sorted (l : list A) :
  Forall good l →
  StronglySorted (λ a b, key b ≤ key a) (Array_sort comparefn l).
Proof.
  induction 1 as [|x l Hx Hl IH]; [constructor|].
  unfold Array_sort in *. cbn [foldr]. apply sortInsert_sorted; [done| |done].
  fold (Array_sort comparefn l). by rewrite Array_sort_perm.
Qed.

Lemma sortInsert_stable (k : Z) (x : A) (l : list A) :
  good x → Forall good l →
  List.filter (λ a, bool_decide (key a = k)) (sortInsert comparefn x l)
  = List.filter (λ a, bool_decide (key a = k)) (x :: l).
Proof.
  intros Hx Hl. induction l as [|y l IH]; [done|].
  apply Forall_cons in Hl as [Hy Hl].
  cbn [sortInsert]. rewrite (sortCompare_key x y Hx Hy). destruct (Z.ltb_spec 0 (key y - key x)); [|done].
  cbn [List.filter] in *. rewrite (IH Hl).
  repeat case_bool_decide; try done. lia.
Qed.

Lemma Array_sort_stable (k : Z) (l : list A) :
  Forall good l →
  List.filter (λ a, bool_decide (key a = k)) (Array_sort comparefn l)
  = List.filter (λ a, bool_decide (key a = k)) l.
Proof.
  induction 1 as [|x l Hx Hl IH]; [done|].
  unfold Array_sort in *. cbn [foldr]. rewrite sortInsert_stable; [|done|].
  - cbn [List.filter]. by rewrite IH.
  - fold (Array_sort comparefn l). by rewrite Array_sort_perm.
Qed.

End SortFacts.

(** ** The combined listing *)

Section FetchMoviesFacts.
Context {runtime : Runtime}.

(** The time value of an entry's release date, for entries that have one. *)
Let releaseTime (movie : Movie.t) : Z :=
  default 0 (new_Date (Movie.release_date movie)).

Lemma new_Date_valid (movie : Movie.t) :
  validResult movie = true →
  new_Date (Movie.release_date movie) = Some (releaseTime movie).
Proof.
  unfold validResult, releaseTime.
  intros [_ [t Ht]%bool_decide_eq_true]%andb_true_iff. by rewrite Ht.
Qed.

Lemma compareFn_valid (a b : Movie.t) :
  validResult a = true → validResult b = true →
  compareFn a b = Some (releaseTime b - releaseTime a).
Proof.
  intros Ha Hb. unfold compareFn.
  by rewrite (new_Date_valid a Ha), (new_Date_valid b Hb).
Qed.

Lemma combinedResults_valid (w : World) :
  Forall (λ movie, validResult movie = true) (combinedResults w).
Proof.
  unfold combinedResults.
  induction GENRE_COMBINATIONS as [|g combinations IH]; [done|].
  cbn [map concat]. apply Forall_app. split; [|done].
  apply fetchMoviesForCombination_valid.
Qed.

Lemma elem_of_combinedResults (w : World) (g : string) (movie : Movie.t) :
  g ∈ GENRE_COMBINATIONS →
  movie ∈ snd (fetchMoviesForCombination w g) →
  movie ∈ combinedResults w.
Proof.
  intros Hg Hmovie. unfold combinedResults.
  apply list_elem_of_In, in_concat.
  exists (snd (fetchMoviesForCombination w g)). split.
  - apply in_map_iff. exists g. split; [done | by apply list_elem_of_In].
  - by apply list_elem_of_In.
Qed.

Lemma fetchMovies_perm (w : World) : fetchMovies w ≡ₚ combinedResults w.
Proof. apply Array_sort_perm. Qed.

Lemma fetchMovies_sorted (w : World) :
  StronglySorted (λ a b, releaseTime b ≤ releaseTime a) (fetchMovies w).
Proof.
  apply (Array_sort_sorted compareFn releaseTime
           (λ movie, validResult movie = true) compareFn_valid).
  apply combinedResults_valid.
Qed.

Lemma fetchMovies_valid (w : World) :
  Forall (λ movie, validResult movie = true) (fetchMovies w).
Proof. rewrite fetchMovies_perm. apply combinedResults_valid. Qed.

Lemma filter_time_valid (t : Z) (l : list Movie.t) :
  Forall (λ movie, validResult movie = true) l →
  List.filter (λ movie,
    bool_decide (new_Date (Movie.release_date movie) = Some t)) l
  = List.filter (λ movie, bool_decide (releaseTime movie = t)) l.
Proof.
  induction 1 as [|movie l Hmovie _ IH]; [done|].
  cbn [List.filter]. rewrite IH, (new_Date_valid movie Hmovie).
  repeat case_bool_decide; congruence.
Qed.

Lemma fetchMovies_stable (w : World) (t : Z) :
  List.filter (λ movie,
    bool_decide (new_Date (Movie.release_date movie) = Some t)) (fetchMovies w)
  = List.filter (λ movie,
      bool_decide (new_Date (Movie.release_date movie) = Some t))
      (combinedResults w).
Proof.
  rewrite !filter_time_valid
    by (apply fetchMovies_valid || apply combinedResults_valid).
  apply (Array_sort_stable compareFn releaseTime
           (λ movie, validResult movie = true) compareFn_valid).
  apply combinedResults_valid.
Qed.

Lemma fetchMovies_descending (w : World) (i j : nat) (a b : Movie.t) :
  (i < j)%nat → fetchMovies w !! i = Some a → fetchMovies w !! j = Some b →
  ∃ ta tb, new_Date (Movie.release_date a) = Some ta ∧
           new_Date (Movie.release_date b) = Some tb ∧ tb ≤ ta.
Proof.
  intros Hij Ha Hb. exists (releaseTime a), (releaseTime b).
  pose proof (fetchMovies_valid w) as Hvalid. rewrite Forall_forall in Hvalid.
  split; [|split].
  - apply new_Date_valid, Hvalid. by eapply list_elem_of_lookup_2.
  - apply new_Date_valid, Hvalid. by eapply list_elem_of_lookup_2.
  - pose proof (fetchMovies_sorted w) as Hsorted.
    rewrite <- (take_drop_middle _ _ _ Ha) in Hsorted, Hb.
    apply StronglySorted_app_1_r, StronglySorted_inv in Hsorted as [_ Hbelow].
    rewrite Forall_forall in Hbelow. apply Hbelow.
    rewrite lookup_app_r in Hb by (rewrite length_take; lia).
    rewrite length_take_le in Hb by (apply lookup_lt_Some in Ha; lia).
    destruct (j - i)%nat as [|d] eqn:Hd; [lia|].
    by eapply list_elem_of_lookup_2.
Qed.

(** C2, as amended. When a page request of a combination fails, also
    after earlier pages were answered, [fetchMoviesForCombination]
    returns the empty list: what the earlier pages gave is dropped. The
    failing page is the last one requested for that combination, and the
    failure stays with that combination: whatever another combination
    returns is part of the listing [fetchMovies] builds. *)
Theorem fetchMoviesForCombination_failure (w : World) (g : string) (p : Z) :
  p ∈ fst (fetchMoviesForCombination w g) →
  axios_get_discover w g p = None →
  snd (fetchMoviesForCombination w g) = [] ∧
  fst (fetchMoviesForCombination w g) = seqZ 1 p ∧
  (∀ g' movie, g' ∈ GENRE_COMBINATIONS →
     movie ∈ snd (fetchMoviesForCombination w g') → movie ∈ fetchMovies w).
Proof.
  rewrite fetchMoviesForCombination_eq. cbn [fst snd]. intros Hp Hfail.
  destruct (doWhile_shape w g (Z.to_nat (NUM_PAGES - 1)) 1 [] ltac:(lia))
    as (n & Hn & Hreq & Hbefore & _ & Hres).
  rewrite Hreq in Hp |- *. apply elem_of_seqZ in Hp.
  assert (p = n) as ->.
  { destruct (decide (p = n)) as [|Hne]; [done|].
    destruct (Hbefore p ltac:(lia)) as (response & ? & _). congruence. }
  replace (1 + n - 1) with n in Hres by lia. rewrite Hfail in Hres.
  rewrite Hres. repeat split.
  intros g' movie Hg' Hmovie. rewrite fetchMovies_perm.
  by eapply elem_of_combinedResults.
Qed.

End FetchMoviesFacts.

(** C2, as stated, fails: the first page gave an entry, the second page
    fails, and the combination returns nothing. *)
Lemma fetchMoviesForCombination_drops_gathered :
  @validResultsOf (exampleRuntime 5) (secondPageFails [ironMan] 3) "28,12" 1
  = [ironMan] ∧
  axios_get_discover (secondPageFails [ironMan] 3) "28,12" 2 = None ∧
  @fetchMoviesForCombination (exampleRuntime 5) (secondPageFails [ironMan] 3) "28,12"
  = ([1; 2], []).
Proof. repeat split. Qed.

(** [fetchMoviesForCombination_failure] where page 2 of one combination
    fails and the other combinations answer. *)
Lemma fetchMoviesForCombination_failure_witness :
  snd (@fetchMoviesForCombination (exampleRuntime 5)
         (secondPageFails [ironMan] 3) "28,12") = [] ∧
  fst (@fetchMoviesForCombination (exampleRuntime 5)
         (secondPageFails [ironMan] 3) "28,12") = [1; 2] ∧
  madMax ∈ @fetchMovies (exampleRuntime 5) (secondPageFails [ironMan] 3).
Proof.
  destruct (@fetchMoviesForCombination_failure (exampleRuntime 5)
              (secondPageFails [ironMan] 3) "28,12" 2) as (Hempty & Hpages & Hothers).
  - apply list_elem_of_In. right. left. reflexivity.
  - reflexivity.
  - split; [exact Hempty | split; [exact Hpages |]].
    apply (Hothers "28,35" madMax).
    + apply list_elem_of_In. right. left. reflexivity.
    + apply list_elem_of_In. left. reflexivity.
Defined.

(** ** One refresh run *)

Section RefreshFacts.
Context {runtime : Runtime}.

Lemma mergedFrom_snoc (w : World) (entries : list Movie.t) (movie : Movie.t) :
  ∀ (i : nat) (st : Store),
    mergedFrom w i (entries ++ [movie]) st
    = assignMeta w (i + length entries) movie (mergedFrom w i entries st).
Proof.
  induction entries as [|e entries IH]; intros i st; cbn [mergedFrom app length].
  - by rewrite Nat.add_0_r.
  - rewrite IH. by rewrite Nat.add_succ_r.
Qed.

Lemma merged_S (w : World) (k : nat) (results : list Movie.t) (movie : Movie.t)
    (st : Store) :
  results !! k = Some movie →
  merged w (S k) results st = assignMeta w k movie (merged w k results st).
Proof.
  intros Hk. unfold merged. rewrite (take_S_r _ _ _ Hk), mergedFrom_snoc.
  rewrite length_take_le; [done|]. apply lookup_lt_Some in Hk. lia.
Qed.

Lemma merged_ge (w : World) (k : nat) (results : list Movie.t) (st : Store) :
  (length results ≤ k)%nat →
  merged w k results st = merged w (length results) results st.
Proof. intros Hk. unfold merged. by rewrite !take_ge by lia. Qed.

Lemma catalogCache_mergedFrom (w : World) (entries : list Movie.t) :
  ∀ (i : nat) (st : Store),
    catalogCache (mergedFrom w i entries st) = catalogCache st.
Proof.
  induction entries as [|e entries IH]; intros i st; [done|].
  cbn [mergedFrom]. by rewrite IH.
Qed.

(** Where a run stands after the listing has arrived and [n] movie
    requests have settled. *)
Lemma runAfter_S (w : World) (st : Store) (n : nat) :
  (n ≤ length (fetchMovies w))%nat →
  runAfter w st (S n)
  = (merged w n (fetchMovies w) (assignCatalog w (fetchMovies w) st),
     forOf n (drop n (fetchMovies w))).
Proof.
  induction n as [|n IH]; intros Hn; [done|].
  unfold runAfter in *. rewrite Nat.iter_succ, IH by lia. cbn [fst snd].
  destruct (lookup_lt_is_Some_2 (fetchMovies w) n ltac:(lia)) as [movie Hmovie].
  rewrite (drop_S _ _ _ Hmovie). cbn [forOf resume].
  by rewrite (merged_S _ _ _ _ _ Hmovie).
Qed.

Lemma runAfter_returned (w : World) (st : Store) (n : nat) :
  (segments w ≤ n)%nat →
  runAfter w st n
  = (merged w (length (fetchMovies w)) (fetchMovies w)
       (assignCatalog w (fetchMovies w) st),
     Returned).
Proof.
  unfold segments. intros Hn.
  replace n with ((n - (2 + length (fetchMovies w)))
                  + S (S (length (fetchMovies w))))%nat by lia.
  induction (n - (2 + length (fetchMovies w)))%nat as [|d IH].
  - unfold runAfter. rewrite Nat.add_0_l, Nat.iter_succ.
    fold (runAfter w st (S (length (fetchMovies w)))).
    rewrite runAfter_S by lia. by rewrite drop_all.
  - unfold runAfter in *. rewrite Nat.add_succ_l, Nat.iter_succ. by rewrite IH.
Qed.

Lemma updateCatalogAndMetaCache_eq (w : World) (st : Store) :
  updateCatalogAndMetaCache w st
  = merged w (length (fetchMovies w)) (fetchMovies w)
      (assignCatalog w (fetchMovies w) st).
Proof.
  unfold updateCatalogAndMetaCache, sample. by rewrite runAfter_returned.
Qed.

Lemma sample_S (w : World) (st : Store) (n : nat) :
  sample w st (S n)
  = merged w (n `min` length (fetchMovies w)) (fetchMovies w)
      (assignCatalog w (fetchMovies w) st).
Proof.
  unfold sample. destruct (decide (n ≤ length (fetchMovies w))%nat).
  - rewrite runAfter_S by done. by rewrite Nat.min_l.
  - rewrite runAfter_returned by (unfold segments; lia). by rewrite Nat.min_r by lia.
Qed.

Lemma metaCache_mergedFrom_other (w : World) (key : string)
    (entries : list Movie.t) :
  (∀ movie, movie ∈ entries → propertyKey (Movie.id movie) ≠ key) →
  ∀ (i : nat) (st : Store),
    metaCache (mergedFrom w i entries st) !! key = metaCache st !! key.
Proof.
  induction entries as [|e entries IH]; intros Hother i st; [done|].
  cbn [mergedFrom]. rewrite IH.
  - cbn [assignMeta metaCache]. apply lookup_insert_ne, Hother, list_elem_of_here.
  - intros movie Hmovie. apply Hother. by apply list_elem_of_further.
Qed.

Lemma metaCache_mergedFrom_last (w : World) (movieId : N)
    (entries : list Movie.t) :
  movieId ∈ map Movie.id entries →
  ∀ (i : nat) (st : Store),
    ∃ j movie, entries !! j = Some movie ∧ Movie.id movie = movieId ∧
      metaCache (mergedFrom w i entries st) !! propertyKey movieId
      = Some {| MetaEntry.timestamp := Date_now w (S (i + j));
                MetaEntry.data := fetchMovieMetadata w (i + j) movieId |}.
Proof.
  induction entries as [|e entries IH]; intros Hin i st.
  - by apply elem_of_nil in Hin.
  - cbn [mergedFrom]. destruct (decide (movieId ∈ map Movie.id entries)) as [Hlater|Hnot].
    + destruct (IH Hlater (S i) (assignMeta w i e st)) as (j & movie & Hj & Hid & Hlookup).
      exists (S j), movie. rewrite Nat.add_succ_r. by repeat split.
    + cbn [map] in Hin. apply elem_of_cons in Hin as [Hhere|]; [|done].
      exists 0%nat, e. rewrite Nat.add_0_r. repeat split; [done|].
      rewrite metaCache_mergedFrom_other.
      * cbn [assignMeta metaCache]. rewrite <- Hhere. apply lookup_insert_eq.
      * intros movie Hmovie Hkey. apply propertyKey_inj in Hkey.
        apply Hnot. rewrite <- Hkey. apply list_elem_of_In, in_map.
        by apply list_elem_of_In.
Qed.

(** C1, as amended. A handler that runs before the listing of a run has
    arrived reads the pair the run started from. The run installs the new
    snapshot before it merges any record, so a handler that runs later
    reads the new snapshot together with the table into which the records
    of the first [k] entries have been merged in place, [k] growing from 0
    (the table as it was before the run) to the number of entries. Once the
    run has returned, a handler reads the completed pair. *)
Theorem sample_stages (w : World) (st : Store) :
  sample w st 0 = st ∧
  metaCache (sample w st 1) = metaCache st ∧
  (∀ n,
     sample w st (S n)
     = merged w (n `min` length (fetchMovies w)) (fetchMovies w)
         (assignCatalog w (fetchMovies w) st) ∧
     catalogCache (sample w st (S n))
     = {| CatalogCache.timestamp := Some (Date_now w 0);
          CatalogCache.data := Some (fetchMovies w) |}) ∧
  (∀ n, (segments w ≤ n)%nat →
     runAfter w st n = (updateCatalogAndMetaCache w st, Returned)) ∧
  updateCatalogAndMetaCache w st
  = merged w (length (fetchMovies w)) (fetchMovies w)
      (assignCatalog w (fetchMovies w) st).
Proof.
  split; [done|]. split; [done|]. split; [|split].
  - intros n. rewrite sample_S. split; [done|].
    unfold merged. by rewrite catalogCache_mergedFrom.
  - intros n Hn. by rewrite updateCatalogAndMetaCache_eq, runAfter_returned.
  - apply updateCatalogAndMetaCache_eq.
Qed.

(** C5. The snapshot a refresh run installs holds the listing of
    [fetchMovies]: the entries of all combinations, each as often as it
    was returned, ordered by release date with the most recent first, and
    the entries of one and the same release time in the order in which
    the combinations returned them. *)
Theorem fetchMovies_sorted_stable (w : World) (st : Store) :
  CatalogCache.data (catalogCache (updateCatalogAndMetaCache w st))
  = Some (fetchMovies w) ∧
  fetchMovies w ≡ₚ combinedResults w ∧
  (∀ i j a b, (i < j)%nat →
     fetchMovies w !! i = Some a → fetchMovies w !! j = Some b →
     ∃ ta tb, new_Date (Movie.release_date a) = Some ta ∧
              new_Date (Movie.release_date b) = Some tb ∧ tb ≤ ta) ∧
  (∀ t,
     List.filter (λ movie,
       bool_decide (new_Date (Movie.release_date movie) = Some t)) (fetchMovies w)
     = List.filter (λ movie,
         bool_decide (new_Date (Movie.release_date movie) = Some t))
         (combinedResults w)).
Proof.
  split; [|split; [|split]].
  - rewrite updateCatalogAndMetaCache_eq. unfold merged.
    by rewrite catalogCache_mergedFrom.
  - apply fetchMovies_perm.
  - apply fetchMovies_descending.
  - apply fetchMovies_stable.
Qed.

(** C8. A refresh run merges into the table it finds: every key that is
    not the id of an entry of the new snapshot keeps its entry, or its
    absence; in particular the entry of every id that does not occur in the
    new snapshot is retained as it was. The key of every id in the new
    snapshot holds the record fetched in this run for the last entry of
    that id, with the time of that assignment. *)
Theorem updateCatalogAndMetaCache_merges (w : World) (st : Store) :
  (∀ key,
     (∀ movie, movie ∈ fetchMovies w → propertyKey (Movie.id movie) ≠ key) →
     metaCache (updateCatalogAndMetaCache w st) !! key = metaCache st !! key) ∧
  (∀ movieId : N,
     movieId ∉ map Movie.id (fetchMovies w) →
     metaCache (updateCatalogAndMetaCache w st) !! propertyKey movieId
     = metaCache st !! propertyKey movieId) ∧
  (∀ movie, movie ∈ fetchMovies w →
     ∃ k movie', fetchMovies w !! k = Some movie' ∧
       Movie.id movie' = Movie.id movie ∧
       metaCache (updateCatalogAndMetaCache w st) !! propertyKey (Movie.id movie)
       = Some {| MetaEntry.timestamp := Date_now w (S k);
                 MetaEntry.data := fetchMovieMetadata w k (Movie.id movie) |}).
Proof.
  rewrite updateCatalogAndMetaCache_eq. unfold merged. rewrite firstn_all.
  split; [|split].
  - intros key Hother. by rewrite metaCache_mergedFrom_other.
  - intros movieId Hnew. rewrite metaCache_mergedFrom_other; [done|].
    intros movie Hmovie Hkey. apply propertyKey_inj in Hkey.
    apply Hnew. rewrite <- Hkey. apply list_elem_of_In, in_map.
    by apply list_elem_of_In.
  - intros movie Hmovie.
    apply (metaCache_mergedFrom_last w (Movie.id movie) (fetchMovies w)).
    apply list_elem_of_In, in_map. by apply list_elem_of_In.
Qed.

End RefreshFacts.

(** [sample_stages] on a run over a listing of one entry: three segments. *)
Lemma sample_stages_witness :
  runAfter (runtime := exampleRuntime 5) (steadyListing [ironMan] 1) earlierStore 3
  = (updateCatalogAndMetaCache (runtime := exampleRuntime 5)
       (steadyListing [ironMan] 1) earlierStore, Returned).
Proof.
  destruct (@sample_stages (exampleRuntime 5) (steadyListing [ironMan] 1) earlierStore)
    as (_ & _ & _ & Hreturned & _).
  apply (Hreturned 3%nat). vm_compute. lia.
Defined.

(** [fetchMovies_sorted_stable] on a listing returned as Iron Man (2008),
    Mad Max (2015): the sort puts Mad Max first. *)
Lemma fetchMovies_sorted_stable_witness :
  ∃ ta tb, isoDateParse "2015-05-13" = Some ta ∧
           isoDateParse "2008-04-30" = Some tb ∧ tb ≤ ta.
Proof.
  destruct (@fetchMovies_sorted_stable (exampleRuntime 5)
              (steadyListing [ironMan; madMax] 1) initialStore)
    as (_ & _ & Hdescending & _).
  apply (Hdescending 0%nat 1%nat madMax ironMan); [lia | reflexivity | reflexivity].
Defined.

(** [updateCatalogAndMetaCache_merges] on a table with an entry for a movie
    that is no longer listed and a failure marker for one that is. *)
Lemma updateCatalogAndMetaCache_merges_witness :
  metaCache (updateCatalogAndMetaCache (runtime := exampleRuntime 5)
               (steadyListing [ironMan] 1) earlierStore) !! "99"
  = Some {| MetaEntry.timestamp := 1600000000000; MetaEntry.data := details "Gone" |}
  ∧ metaCache (updateCatalogAndMetaCache (runtime := exampleRuntime 5)
                 (steadyListing [ironMan] 1) earlierStore) !! propertyKey 99
    = metaCache earlierStore !! propertyKey 99
  ∧ ∃ k movie',
      fetchMovies (runtime := exampleRuntime 5) (steadyListing [ironMan] 1) !! k
      = Some movie' ∧ Movie.id movie' = 1726%N ∧
      metaCache (updateCatalogAndMetaCache (runtime := exampleRuntime 5)
                   (steadyListing [ironMan] 1) earlierStore) !! "1726"
      = Some {| MetaEntry.timestamp := 1700000000000 + Z.of_nat (S k);
                MetaEntry.data := details "Iron Man" |}.
Proof.
  destruct (@updateCatalogAndMetaCache_merges (exampleRuntime 5)
              (steadyListing [ironMan] 1) earlierStore) as (Hkept & Hid & Hfresh).
  split; [|split].
  - rewrite (Hkept "99"); [reflexivity|].
    intros movie Hmovie.
    change (movie ∈ [ironMan]) in Hmovie.
    apply list_elem_of_singleton in Hmovie. rewrite Hmovie. discriminate.
  - apply (Hid 99%N). intros Hin.
    change (99%N ∈ [1726%N]) in Hin.
    apply list_elem_of_singleton in Hin. discriminate.
  - apply (Hfresh ironMan). apply list_elem_of_In. left. reflexivity.
Defined.

(** ** The process *)

Section ServerFacts.
Context {runtime : Runtime}.

Lemma step_Settle_length (w : World) (p p' : Process) (i : nat) :
  step w p (Settle i) = Some p' →
  (length (inflight p') ≤ length (inflight p))%nat.
Proof.
  unfold step. destruct (inflight p !! i) as [run|] eqn:Hrun; [|done].
  destruct (resume w (store p) (pc run)) as [st [| | |]];
    intros [= <-]; cbn [inflight];
    rewrite ?length_insert, ?length_delete by eauto; lia.
Qed.

Lemma exec_app (w : World) (events events' : list Event) :
  ∀ p, exec w p (events ++ events')
       = match exec w p events with
         | Some p' => exec w p' events'
         | None => None
         end.
Proof.
  induction events as [|e events IH]; intros p; [done|].
  cbn [app exec]. by destruct (step w p e).
Qed.

Lemma pc_runAfter_pending (w : World) (st : Store) (n : nat) :
  (n < segments w)%nat → snd (runAfter w st n) ≠ Returned.
Proof.
  unfold segments. intros Hn. destruct n as [|n]; [done|].
  rewrite runAfter_S by lia. cbn [snd].
  by destruct (drop n (fetchMovies w)).
Qed.

(** A process with one run in flight, [n] segments into it. *)
Let alone (w : World) (st : Store) (isServing isStartup : bool) (n : nat)
    : Process :=
  {| store := sample w st n; serving := isServing;
     inflight := [{| startup := isStartup; pc := snd (runAfter w st n) |}] |}.

Lemma step_alone (w : World) (st : Store) (isServing isStartup : bool) (n : nat) :
  step w (alone w st isServing isStartup n) (Settle 0)
  = match snd (runAfter w st (S n)) with
    | Returned =>
        Some {| store := sample w st (S n); serving := isServing || isStartup;
                inflight := [] |}
    | _ => Some (alone w st isServing isStartup (S n))
    end.
Proof.
  unfold alone, step, sample. cbn [inflight lookup list_lookup store pc startup].
  change (runAfter w st (S n))
    with (resume w (fst (runAfter w st n)) (snd (runAfter w st n))).
  destruct (resume w (fst (runAfter w st n)) (snd (runAfter w st n)))
    as [st' [| | |]]; by cbn [fst snd].
Qed.

Lemma exec_alone (w : World) (st : Store) (isServing isStartup : bool) (n : nat) :
  (n < segments w)%nat →
  exec w (alone w st isServing isStartup 0) (replicate n (Settle 0))
  = Some (alone w st isServing isStartup n).
Proof.
  induction n as [|n IH]; intros Hn; [done|].
  rewrite replicate_S_end, exec_app, IH by lia. cbn [exec].
  rewrite step_alone. pose proof (pc_runAfter_pending w st (S n) Hn).
  by destruct (snd (runAfter w st (S n))).
Qed.

(** A run that is alone in flight returns after [segments w] segments and
    leaves the store of [updateCatalogAndMetaCache]. *)
Lemma exec_alone_returns (w : World) (st : Store) (isServing isStartup : bool) :
  exec w {| store := st; serving := isServing;
            inflight := [refreshCache isStartup] |}
    (replicate (segments w) (Settle 0))
  = Some {| store := updateCatalogAndMetaCache w st;
            serving := isServing || isStartup; inflight := [] |}.
Proof.
  change {| store := st; serving := isServing;
            inflight := [refreshCache isStartup] |}
    with (alone w st isServing isStartup 0).
  unfold segments at 1. cbn [Nat.add].
  rewrite replicate_S_end, exec_app, exec_alone by (unfold segments; lia).
  cbn [exec]. rewrite step_alone.
  change (S (S (length (fetchMovies w)))) with (segments w).
  unfold updateCatalogAndMetaCache.
  by rewrite (runAfter_returned w st (segments w)).
Qed.

(** C3, as amended. Nothing keeps runs apart: when the scheduled job
    fires, a run is started at once, next to whatever runs are in flight,
    and the store is left as it is. At most one run is in flight in the
    executions in which the job fires only while none is. *)
Theorem cron_starts_run_unguarded (w : World) (p : Process) :
  step w p CronFire
  = Some {| store := store p; serving := serving p;
            inflight := inflight p ++ [refreshCache false] |} ∧
  (∀ events p',
     (length (inflight p) ≤ 1)%nat →
     firesOnlyWhenIdle w p events →
     exec w p events = Some p' →
     (length (inflight p') ≤ 1)%nat).
Proof.
  split; [done|]. intros events. revert p.
  induction events as [|e events IH]; intros p p' Hone Hidle Hexec.
  - cbn in Hexec. by simplify_eq.
  - cbn [exec firesOnlyWhenIdle] in Hexec, Hidle. destruct Hidle as [Hfire Hidle].
    destruct (step w p e) as [p1|] eqn:Hstep; [|done].
    apply (IH p1 p'); [|done..]. destruct e as [|i].
    + cbn in Hstep. simplify_eq. cbn [inflight]. by rewrite Hfire.
    + apply step_Settle_length in Hstep. lia.
Qed.

(** C7. A cache file that is missing or does not parse leaves its
    variable at the empty object it was initialised with, and [loadCache]
    completes. With no catalog cache there is no timestamp: [startServer]
    starts one refresh run and awaits it, and when that run has returned
    the process serves from the refreshed store. A cache file that holds
    [null] is not recovered from: its variable is left [null], and with
    such a catalog file [startServer] throws at line 269, starts no run
    and never serves. *)
Theorem startServer_bootstraps (disk : Disk) (now : Z) (w : World) :
  (catalog_cache_json disk = Missing ∨ catalog_cache_json disk = Corrupt →
     loadedCatalog (loadCache disk initialStore) = Some CatalogCache.empty ∧
     (∀ table, loadedMeta (loadCache disk initialStore) = Some table →
        startServer disk now
        = Up {| store := {| catalogCache := CatalogCache.empty;
                            metaCache := table |};
                serving := false; inflight := [refreshCache true] |} ∧
        exec w {| store := {| catalogCache := CatalogCache.empty;
                              metaCache := table |};
                  serving := false; inflight := [refreshCache true] |}
          (replicate (segments w) (Settle 0))
        = Some {| store :=
                    updateCatalogAndMetaCache w
                      {| catalogCache := CatalogCache.empty; metaCache := table |};
                  serving := true; inflight := [] |})) ∧
  (meta_cache_json disk = Missing ∨ meta_cache_json disk = Corrupt →
     loadedMeta (loadCache disk initialStore) = Some ∅) ∧
  (catalog_cache_json disk = Null →
     loadedCatalog (loadCache disk initialStore) = None ∧
     startServer disk now = Down) ∧
  (meta_cache_json disk = Null →
     loadedMeta (loadCache disk initialStore) = None).
Proof.
  split; [|split; [|split]].
  - intros Hcatalog.
    assert (loadedCatalog (loadCache disk initialStore) = Some CatalogCache.empty)
      as Hempty by (by destruct Hcatalog as [Hfile|Hfile];
                      unfold loadCache; cbn [loadedCatalog]; rewrite Hfile).
    split; [done|]. intros table Htable. split.
    + unfold startServer. by rewrite Hempty, Htable.
    + apply exec_alone_returns.
  - intros [Hfile|Hfile]; unfold loadCache; cbn [loadedMeta]; by rewrite Hfile.
  - intros Hfile. unfold startServer, loadCache. cbn [loadedCatalog loadedMeta].
    by rewrite Hfile.
  - intros Hfile. unfold loadCache. cbn [loadedMeta]. by rewrite Hfile.
Qed.

End ServerFacts.

(** C1, as stated, fails. The cache on disk is fresh, so the server is up;
    the job fires and the listing arrives: a handler that runs now reads
    the new snapshot, which lists a movie, with a table that has no entry
    for it. That pair is neither the one before the run nor the one the
    run completes. *)
Lemma handler_reads_new_snapshot_with_old_table :
  ∃ p0 p,
    startServer freshDisk 1700000000000 = Up p0 ∧
    exec (runtime := exampleRuntime 5) (steadyListing [ironMan] 1)
      p0 [CronFire; Settle 0] = Some p ∧
    serving p = true ∧
    store p
    = sample (runtime := exampleRuntime 5) (steadyListing [ironMan] 1)
        (store p0) 1 ∧
    store p ≠ store p0 ∧
    store p
    ≠ updateCatalogAndMetaCache (runtime := exampleRuntime 5) (steadyListing [ironMan] 1)
        (store p0) ∧
    CatalogCache.data (catalogCache (store p)) = Some [ironMan] ∧
    metaCache (store p) !! propertyKey (Movie.id ironMan) = None.
Proof.
  do 2 eexists. split; [reflexivity|]. split; [reflexivity|]. repeat split.
  - intros Heq.
    apply (f_equal (λ st, CatalogCache.data (catalogCache st))) in Heq.
    discriminate.
  - intros Heq.
    apply (f_equal (λ st, metaCache st !! "1726")) in Heq.
    vm_compute in Heq. discriminate.
Qed.

(** C3, as stated, fails. With no cache on disk [startServer] starts a run
    and awaits it; the job fires meanwhile and a second run is in flight
    next to the first, a third when it fires again. *)
Lemma job_fires_during_a_run :
  ∃ p0,
    startServer noDisk 1700000000000 = Up p0 ∧
    (∃ p,
       exec (runtime := exampleRuntime 5) (steadyListing [ironMan] 1)
         p0 [CronFire] = Some p ∧
       length (inflight p) = 2%nat) ∧
    (∃ p,
       exec (runtime := exampleRuntime 5) (steadyListing [ironMan] 1)
         p0 [CronFire; CronFire] = Some p ∧
       length (inflight p) = 3%nat).
Proof.
  eexists. split; [reflexivity|]. split; eexists; split; reflexivity.
Qed.

(** [cron_starts_run_unguarded] on an execution in which the job fires after
    the start-up run has returned. *)
Lemma cron_starts_run_unguarded_witness :
  ∃ p0 p,
    startServer noDisk 1700000000000 = Up p0 ∧
    exec (runtime := exampleRuntime 5) (steadyListing [ironMan] 1)
      p0 [Settle 0; Settle 0; Settle 0; CronFire; Settle 0]%nat = Some p ∧
    (length (inflight p) ≤ 1)%nat.
Proof.
  do 2 eexists. split; [reflexivity|]. split; [reflexivity|].
  destruct (@cron_starts_run_unguarded (exampleRuntime 5)
              (steadyListing [ironMan] 1)
              {| store := initialStore; serving := false;
                 inflight := [refreshCache true] |})
    as (_ & Hone).
  apply (Hone [Settle 0; Settle 0; Settle 0; CronFire; Settle 0]%nat).
  - vm_compute. lia.
  - vm_compute. repeat split; intros; try discriminate; reflexivity.
  - reflexivity.
Defined.

(** [startServer_bootstraps] with one cache file missing and the other
    corrupt, and with a catalog file that holds [null]. *)
Lemma startServer_bootstraps_witness :
  startServer noDisk 1700000000000
  = Up {| store := initialStore; serving := false;
          inflight := [refreshCache true] |} ∧
  exec (runtime := exampleRuntime 5) (steadyListing [ironMan] 1)
    {| store := initialStore; serving := false; inflight := [refreshCache true] |}
    [Settle 0; Settle 0; Settle 0]%nat
  = Some {| store := updateCatalogAndMetaCache (runtime := exampleRuntime 5)
                       (steadyListing [ironMan] 1) initialStore;
            serving := true; inflight := [] |} ∧
  loadedMeta (loadCache noDisk initialStore) = Some ∅ ∧
  startServer nullDisk 1700000000000 = Down.
Proof.
  destruct (@startServer_bootstraps (exampleRuntime 5) noDisk 1700000000000
              (steadyListing [ironMan] 1)) as (Hcatalog & Hmeta & _).
  destruct Hcatalog as (_ & Hstart); [left; reflexivity|].
  destruct (Hstart ∅) as (Hup & Hserves); [reflexivity|].
  split; [exact Hup|]. split; [exact Hserves|]. split.
  - apply Hmeta. right. reflexivity.
  - destruct (@startServer_bootstraps (exampleRuntime 5) nullDisk 1700000000000
                (steadyListing [ironMan] 1)) as (_ & _ & Hnull & _).
    apply Hnull. reflexivity.
Defined.

(** * Further properties of the code *)

(** ** Requests and results of one combination *)

Section FetchBounds.
Context {runtime : Runtime}.

(** X1. For one combination [fetchMoviesForCombination] requests each page
    at most once, never a page below 1 or above [max 1 NUM_PAGES], and so
    at most [max 1 NUM_PAGES] pages, whatever the responses report. *)
Theorem fetchMoviesForCombination_request_bound (w : World) (g : string) :
  (∀ p, p ∈ fst (fetchMoviesForCombination w g) → 1 ≤ p ≤ Z.max 1 NUM_PAGES) ∧
  (length (fst (fetchMoviesForCombination w g)) ≤ Z.to_nat (Z.max 1 NUM_PAGES))%nat ∧
  NoDup (fst (fetchMoviesForCombination w g)).
Proof.
  rewrite fetchMoviesForCombination_eq. cbn [fst].
  destruct (doWhile_shape w g (Z.to_nat (NUM_PAGES - 1)) 1 [] ltac:(lia))
    as (n & Hn & -> & Hbefore & _ & _).
  assert (n ≤ Z.max 1 NUM_PAGES) as Hbound.
  { destruct (decide (n ≤ 1)) as [|Hmore]; [lia|].
    destruct (Hbefore (n - 1) ltac:(lia)) as (response & _ & Hcap & _). lia. }
  split; [|split].
  - intros p Hp%elem_of_seqZ. lia.
  - rewrite length_seqZ. lia.
  - apply NoDup_seqZ.
Qed.

(** X2. When none of the requests of a combination fails, what
    [fetchMoviesForCombination] returns is what the requested pages hold,
    page after page and in the order within each page, without the entries
    whose date is missing or does not parse; the number of pages reported
    may change from page to page. *)
Theorem fetchMoviesForCombination_gathers (w : World) (g : string) :
  (∀ p, p ∈ fst (fetchMoviesForCombination w g) →
     is_Some (axios_get_discover w g p)) →
  snd (fetchMoviesForCombination w g)
  = concat (map (validResultsOf w g) (fst (fetchMoviesForCombination w g))).
Proof.
  rewrite fetchMoviesForCombination_eq. cbn [fst snd].
  destruct (doWhile_shape w g (Z.to_nat (NUM_PAGES - 1)) 1 [] ltac:(lia))
    as (n & Hn & -> & _ & _ & ->).
  intros Hanswered.
  destruct (Hanswered (1 + n - 1)) as [response ->]; [|done].
  apply elem_of_seqZ. lia.
Qed.

Lemma fetchMoviesForCombination_first_fails (w : World) (g : string) :
  axios_get_discover w g 1 = None →
  fetchMoviesForCombination w g = ([1], []).
Proof.
  intros Hfail. rewrite fetchMoviesForCombination_eq, doWhile_unfold.
  by rewrite Hfail.
Qed.

Lemma fetchMovies_outage (w : World) :
  (∀ g, g ∈ GENRE_COMBINATIONS → axios_get_discover w g 1 = None) →
  fetchMovies w = [].
Proof.
  intros Hdown. unfold fetchMovies, combinedResults.
  assert (concat (map (λ combination, snd (fetchMoviesForCombination w combination))
                      GENRE_COMBINATIONS) = []) as ->; [|done].
  induction GENRE_COMBINATIONS as [|g combinations IH]; [done|].
  cbn [map concat].
  rewrite fetchMoviesForCombination_first_fails
    by (apply Hdown, list_elem_of_here).
  apply IH. intros g' Hg'. apply Hdown. by apply list_elem_of_further.
Qed.

(** X3. When the first page of every combination fails, the refresh run
    still completes: it replaces the cached catalog by an empty one with a
    new timestamp and leaves the table as it was, and the catalog handler
    answers the empty list from then on, whatever the query. *)
Theorem outage_empties_catalog (w : World) (st : Store) :
  (∀ g, g ∈ GENRE_COMBINATIONS → axios_get_discover w g 1 = None) →
  updateCatalogAndMetaCache w st
  = {| catalogCache := {| CatalogCache.timestamp := Some (Date_now w 0);
                          CatalogCache.data := Some [] |};
       metaCache := metaCache st |} ∧
  (∀ search,
     catalogHandler (catalogCache (updateCatalogAndMetaCache w st)) search
     = Normal []).
Proof.
  intros Hdown. pose proof (fetchMovies_outage w Hdown) as Hnone.
  assert (updateCatalogAndMetaCache w st
          = {| catalogCache := {| CatalogCache.timestamp := Some (Date_now w 0);
                                  CatalogCache.data := Some [] |};
               metaCache := metaCache st |}) as Hstore.
  { rewrite updateCatalogAndMetaCache_eq, Hnone. reflexivity. }
  split; [done|]. intros search. rewrite Hstore. unfold catalogHandler.
  cbn [catalogCache CatalogCache.data default].
  by destruct (truthy (Some _)).
Qed.

End FetchBounds.

(** [fetchMoviesForCombination_request_bound] with two pages allowed and a
    listing of three. *)
Lemma fetchMoviesForCombination_request_bound_witness :
  1 ≤ 2 ≤ Z.max 1 2.
Proof.
  destruct (@fetchMoviesForCombination_request_bound (exampleRuntime 2)
              (steadyListing [ironMan] 3) "28,12") as (Hrange & _ & _).
  apply (Hrange 2). apply list_elem_of_In. right. left. reflexivity.
Defined.

(** [fetchMoviesForCombination_gathers] on a listing of two pages. *)
Lemma fetchMoviesForCombination_gathers_witness :
  snd (fetchMoviesForCombination (runtime := exampleRuntime 5)
         (steadyListing [ironMan; untitled] 2) "28,12")
  = [ironMan; untitled; ironMan; untitled].
Proof.
  apply (@fetchMoviesForCombination_gathers (exampleRuntime 5)
           (steadyListing [ironMan; untitled] 2) "28,12").
  intros p _. eexists. reflexivity.
Defined.

(** [outage_empties_catalog] on a store that held a catalog. *)
Lemma outage_empties_catalog_witness :
  CatalogCache.data
    (catalogCache (updateCatalogAndMetaCache (runtime := exampleRuntime 5)
                     outage earlierStore)) = Some [] ∧
  metaCache (updateCatalogAndMetaCache (runtime := exampleRuntime 5)
               outage earlierStore) = earlierTable.
Proof.
  destruct (@outage_empties_catalog (exampleRuntime 5) outage earlierStore)
    as (Hstore & _).
  - intros g _. reflexivity.
  - rewrite Hstore. split; reflexivity.
Defined.

(** ** The listing and the table after a run *)

Section SortedInput.
Context {A : Type} (comparefn : A → A → option Z).
Context (key : A → Z) (good : A → Prop).
Hypothesis comparefn_key :
  ∀ x y, good x → good y → comparefn x y = Some (key y - key x).

Lemma Array_sort_sorted_id (l : list A) :
  Forall good l →
  StronglySorted (λ a b, key b ≤ key a) l →
  Array_sort comparefn l = l.
Proof.
  induction 1 as [|x l Hx Hl IH]; intros Hsorted; [done|].
  apply StronglySorted_inv in Hsorted as [Hsorted Hbelow].
  unfold Array_sort in *. cbn [foldr]. rewrite (IH Hsorted).
  destruct Hl as [|y l Hy Hl]; [done|]. cbn [sortInsert].
  rewrite (sortCompare_key comparefn key good comparefn_key x y Hx Hy).
  apply Forall_cons in Hbelow as [Hyx _].
  by rewrite (proj2 (Z.ltb_ge 0 (key y - key x))) by lia.
Qed.

End SortedInput.

Section AfterRun.
Context {runtime : Runtime}.

(** X4. When the combinations return their entries already ordered by
    release date, the most recent first, across all combinations, the sort
    of [fetchMovies] changes nothing: the listing is the concatenation of
    what the combinations returned. *)
Theorem fetchMovies_keeps_descending (w : World) :
  StronglySorted
    (λ a b, ∃ ta tb, new_Date (Movie.release_date a) = Some ta ∧
                     new_Date (Movie.release_date b) = Some tb ∧ tb ≤ ta)
    (combinedResults w) →
  fetchMovies w = combinedResults w.
Proof.
  intros Hsorted.
  apply (Array_sort_sorted_id compareFn
           (λ movie, default 0 (new_Date (Movie.release_date movie)))
           (λ movie, validResult movie = true) compareFn_valid).
  - apply combinedResults_valid.
  - induction Hsorted as [|a l _ IH Hbelow]; constructor; [done|].
    eapply Forall_impl; [exact Hbelow|].
    intros b (ta & tb & -> & -> & Hle). exact Hle.
Qed.

Lemma dom_mergedFrom (w : World) (entries : list Movie.t) :
  ∀ (i : nat) (st : Store),
    dom (metaCache (mergedFrom w i entries st))
    = dom (metaCache st)
      ∪ list_to_set ((λ movie, propertyKey (Movie.id movie)) <$> entries).
Proof.
  induction entries as [|e entries IH]; intros i st.
  - cbn [mergedFrom fmap list_fmap]. by rewrite list_to_set_nil, (right_id_L ∅ (∪)).
  - cbn [mergedFrom]. rewrite IH. cbn [assignMeta metaCache fmap list_fmap].
    rewrite dom_insert_L, list_to_set_cons.
    by rewrite (comm_L (∪) {[propertyKey (Movie.id e)]} (dom (metaCache st))),
      (assoc_L (∪)).
Qed.

(** X5. The keys of the table after a completed run are the keys it had
    before together with the ids of the new listing: no key is dropped,
    and every listed entry has a record. *)
Theorem updateCatalogAndMetaCache_dom (w : World) (st : Store) :
  dom (metaCache (updateCatalogAndMetaCache w st))
  = dom (metaCache st)
    ∪ list_to_set ((λ movie, propertyKey (Movie.id movie)) <$> fetchMovies w) ∧
  (∀ movie, movie ∈ fetchMovies w →
     is_Some (metaCache (updateCatalogAndMetaCache w st)
                !! propertyKey (Movie.id movie))).
Proof.
  assert (dom (metaCache (updateCatalogAndMetaCache w st))
          = dom (metaCache st)
            ∪ list_to_set ((λ movie, propertyKey (Movie.id movie)) <$> fetchMovies w))
    as Hdom.
  { rewrite updateCatalogAndMetaCache_eq. unfold merged.
    by rewrite firstn_all, dom_mergedFrom. }
  split; [done|]. intros movie Hmovie.
  apply elem_of_dom. rewrite Hdom. apply elem_of_union_r, elem_of_list_to_set.
  apply list_elem_of_fmap. by exists movie.
Qed.

(** X6. A movie request that fails overwrites what the table held: when
    every request of the run for a listed id is rejected, the record of
    that id after the run is the failure marker, whatever record was there
    before, and the meta handler answers [null] for it. *)
Theorem failed_request_overwrites (w : World) (st : Store) (movie : Movie.t) :
  movie ∈ fetchMovies w →
  (∀ k, axios_get_movie w k (Movie.id movie) = None) →
  (∃ entry,
     metaCache (updateCatalogAndMetaCache w st) !! propertyKey (Movie.id movie)
     = Some entry ∧ MetaEntry.data entry = MovieData.failed) ∧
  metaHandler (metaCache (updateCatalogAndMetaCache w st))
    ("tmdb-" +:+ propertyKey (Movie.id movie)) = Normal None.
Proof.
  intros Hmovie Hfails.
  assert (Movie.id movie ∈ map Movie.id (fetchMovies w)) as Hid
    by (apply list_elem_of_In, in_map; by apply list_elem_of_In).
  destruct (metaCache_mergedFrom_last w _ _ Hid 0%nat
              (assignCatalog w (fetchMovies w) st))
    as (k & movie' & _ & _ & Hlookup).
  rewrite metaHandler_id, updateCatalogAndMetaCache_eq. unfold merged.
  rewrite firstn_all, Hlookup. unfold fetchMovieMetadata. rewrite Hfails.
  split; [by eexists|done].
Qed.

(** X7. After a completed run the two handlers agree: the catalog handler
    without a query lists the new listing, and for the id of every summary
    it lists the meta handler does not throw; it answers from a record
    fetched in this run for that id, [null] when that record has an
    [error] property and its view otherwise. *)
Theorem listed_ids_resolve (w : World) (st : Store) :
  catalogHandler (catalogCache (updateCatalogAndMetaCache w st)) None
  = Normal (map toMetaPreview (fetchMovies w)) ∧
  (∀ movie, movie ∈ fetchMovies w →
     ∃ k movie',
       fetchMovies w !! k = Some movie' ∧ Movie.id movie' = Movie.id movie ∧
       metaHandler (metaCache (updateCatalogAndMetaCache w st))
         (MetaPreview.id (toMetaPreview movie))
       = if truthy (MovieData.error (fetchMovieMetadata w k (Movie.id movie)))
         then Normal None
         else Normal (Some (toMeta (MetaPreview.id (toMetaPreview movie))
                                   (fetchMovieMetadata w k (Movie.id movie))))).
Proof.
  split.
  - rewrite updateCatalogAndMetaCache_eq. unfold merged.
    rewrite catalogCache_mergedFrom. reflexivity.
  - intros movie Hmovie.
    assert (Movie.id movie ∈ map Movie.id (fetchMovies w)) as Hid
      by (apply list_elem_of_In, in_map; by apply list_elem_of_In).
    destruct (metaCache_mergedFrom_last w _ _ Hid 0%nat
                (assignCatalog w (fetchMovies w) st))
      as (k & movie' & Hk & Hsame & Hlookup).
    exists k, movie'. split; [done|]. split; [done|].
    change (MetaPreview.id (toMetaPreview movie))
      with ("tmdb-" +:+ propertyKey (Movie.id movie)).
    rewrite metaHandler_id, updateCatalogAndMetaCache_eq. unfold merged.
    by rewrite firstn_all, Hlookup.
Qed.

End AfterRun.

(** [fetchMovies_keeps_descending] on a listing returned as Mad Max (2015),
    Iron Man (2008). *)
Lemma fetchMovies_keeps_descending_witness :
  fetchMovies (runtime := exampleRuntime 5) (steadyListing [madMax; ironMan] 1)
  = [madMax; ironMan].
Proof.
  apply (@fetchMovies_keeps_descending (exampleRuntime 5)
           (steadyListing [madMax; ironMan] 1)).
  change (combinedResults (runtime := exampleRuntime 5)
            (steadyListing [madMax; ironMan] 1)) with [madMax; ironMan].
  repeat constructor. do 2 eexists. repeat split; [reflexivity.. | vm_compute; discriminate].
Defined.

(** [updateCatalogAndMetaCache_dom] on a table that had no record for the
    listed movie. *)
Lemma updateCatalogAndMetaCache_dom_witness :
  is_Some (metaCache (updateCatalogAndMetaCache (runtime := exampleRuntime 5)
                        (steadyListing [ironMan] 1) initialStore) !! "1726").
Proof.
  destruct (@updateCatalogAndMetaCache_dom (exampleRuntime 5)
              (steadyListing [ironMan] 1) initialStore) as (_ & Hlisted).
  apply (Hlisted ironMan). apply list_elem_of_In. left. reflexivity.
Defined.

(** [failed_request_overwrites] on a table that held details for the
    listed movie. *)
Lemma failed_request_overwrites_witness :
  metaHandler
    (metaCache
       (updateCatalogAndMetaCache (runtime := exampleRuntime 5)
          (secondPageFails [] 1)
          {| catalogCache := CatalogCache.empty;
             metaCache := {[ "76341" := {| MetaEntry.timestamp := 5;
                                           MetaEntry.data := details "Mad Max" |} ]} |}))
    "tmdb-76341" = Normal None.
Proof.
  destruct (@failed_request_overwrites (exampleRuntime 5) (secondPageFails [] 1)
              {| catalogCache := CatalogCache.empty;
                 metaCache := {[ "76341" := {| MetaEntry.timestamp := 5;
                                               MetaEntry.data := details "Mad Max" |} ]} |}
              madMax) as (_ & Hnull).
  - apply list_elem_of_In. left. reflexivity.
  - intros k. reflexivity.
  - exact Hnull.
Defined.

(** [listed_ids_resolve] on a run that lists one movie and fetches its
    details. *)
Lemma listed_ids_resolve_witness :
  ∃ k movie',
    fetchMovies (runtime := exampleRuntime 5) (steadyListing [ironMan] 1) !! k
    = Some movie' ∧ Movie.id movie' = 1726%N ∧
    metaHandler
      (metaCache (updateCatalogAndMetaCache (runtime := exampleRuntime 5)
                    (steadyListing [ironMan] 1) initialStore))
      "tmdb-1726"
    = Normal (Some (toMeta "tmdb-1726" (details "Iron Man"))).
Proof.
  destruct (@listed_ids_resolve (exampleRuntime 5) (steadyListing [ironMan] 1)
              initialStore) as (_ & Hresolve).
  apply (Hresolve ironMan). apply list_elem_of_In. left. reflexivity.
Defined.

(** ** Invariants of the process *)

Section ProcessInvariants.
Context {runtime : Runtime}.

Lemma resume_keeps (w : World) (st : Store) (pc0 : Pc) :
  dom (metaCache st) ⊆ dom (metaCache (fst (resume w st pc0))) ∧
  (is_Some (CatalogCache.timestamp (catalogCache st)) →
   is_Some (CatalogCache.timestamp (catalogCache (fst (resume w st pc0))))).
Proof.
  destruct pc0 as [|k movie rest| |]; cbn [resume fst]; split; try done.
  cbn [assignMeta metaCache]. rewrite dom_insert_L. apply union_subseteq_r.
Qed.

Lemma step_keeps (w : World) (p p' : Process) (e : Event) :
  step w p e = Some p' →
  (serving p = true → serving p' = true) ∧
  dom (metaCache (store p)) ⊆ dom (metaCache (store p')) ∧
  (is_Some (CatalogCache.timestamp (catalogCache (store p))) →
   is_Some (CatalogCache.timestamp (catalogCache (store p')))).
Proof.
  destruct e as [|i]; cbn [step].
  - by intros [= <-].
  - destruct (inflight p !! i) as [run|]; [|done].
    pose proof (resume_keeps w (store p) (pc run)) as [Hdom Hstamp].
    destruct (resume w (store p) (pc run)) as [st [| | |]];
      intros [= <-]; cbn [serving store fst] in *; repeat split; try done.
    by intros ->.
Qed.

(** X8. Along every execution of the process, also with several runs in
    flight: once handlers are served they stay served, no key is ever
    removed from the table, and a catalog that has a timestamp keeps
    having one. *)
Theorem exec_never_loses (w : World) (events : list Event) :
  ∀ p p', exec w p events = Some p' →
    (serving p = true → serving p' = true) ∧
    dom (metaCache (store p)) ⊆ dom (metaCache (store p')) ∧
    (is_Some (CatalogCache.timestamp (catalogCache (store p))) →
     is_Some (CatalogCache.timestamp (catalogCache (store p')))).
Proof.
  induction events as [|e events IH]; intros p p' Hexec.
  - cbn in Hexec. by simplify_eq.
  - cbn [exec] in Hexec. destruct (step w p e) as [p1|] eqn:Hstep; [|done].
    destruct (step_keeps w p p1 e Hstep) as (Hserve & Hdom & Hstamp).
    destruct (IH p1 p' Hexec) as (Hserve' & Hdom' & Hstamp').
    repeat split; [auto | by etrans | auto].
Qed.

(** A process that serves or has its start-up run in flight. *)
Let starting (p : Process) : Prop :=
  serving p = true ∨ Exists (λ run, startup run = true) (inflight p).

Lemma step_starting (w : World) (p p' : Process) (e : Event) :
  step w p e = Some p' → starting p → starting p'.
Proof.
  unfold starting. destruct e as [|i]; cbn [step].
  - intros [= <-] [?|Hrun]; [by left|right]. cbn [inflight].
    apply Exists_app. by left.
  - destruct (inflight p !! i) as [run|] eqn:Hrun; [|done].
    destruct (resume w (store p) (pc run)) as [st pc'].
    intros Hstep [Hserving|Hstarting].
    { left. destruct pc'; simplify_eq; cbn [serving]; by rewrite Hserving. }
    rewrite <- (take_drop_middle _ _ _ Hrun) in Hstarting.
    apply Exists_app in Hstarting as [Hbefore|Hfrom].
    2: apply Exists_cons in Hfrom as [Hhere|Hafter].
    + right. destruct pc'; simplify_eq; cbn [inflight];
        rewrite ?delete_take_drop,
          ?insert_take_drop by (by eapply lookup_lt_Some);
        apply Exists_app; by left.
    + destruct pc'; simplify_eq; cbn [inflight serving].
      4: { left. rewrite Hhere. apply orb_true_r. }
      all: right; rewrite insert_take_drop by (by eapply lookup_lt_Some);
        apply Exists_app; right; by apply Exists_cons_hd.
    + right. destruct pc'; simplify_eq; cbn [inflight];
        rewrite ?delete_take_drop,
          ?insert_take_drop by (by eapply lookup_lt_Some);
        apply Exists_app; right; try done; by apply Exists_cons_tl.
Qed.

(** X9. When neither cache file holds [null], [startServer] brings the
    process up, and from then on, along every execution, the process
    either serves handlers or still has the run in flight that
    [startServer] awaits: it is never left with the server down and
    nothing under way that will bring it up. *)
Theorem startServer_serves_or_starts (w : World) (disk : Disk) (now : Z) :
  (catalog_cache_json disk ≠ Null → meta_cache_json disk ≠ Null →
     ∃ p0, startServer disk now = Up p0) ∧
  (∀ p0 events p,
     startServer disk now = Up p0 →
     exec w p0 events = Some p →
     serving p = true ∨ Exists (λ run, startup run = true) (inflight p)).
Proof.
  split.
  - intros Hcatalog Hmeta. unfold startServer, loadCache.
    cbn [loadedCatalog loadedMeta].
    destruct (catalog_cache_json disk), (meta_cache_json disk); try done;
      case_match; by eexists.
  - intros p0 events p Hup.
    assert (starting p0) as Hstart.
    { unfold starting. unfold startServer in Hup.
      repeat case_match; simplify_eq; cbn [serving inflight]; [right|by left].
      apply Exists_cons_hd. reflexivity. }
    clear Hup. revert p0 Hstart.
    induction events as [|e events IH]; intros p0 Hstart Hexec.
    + cbn in Hexec. by simplify_eq.
    + cbn [exec] in Hexec. destruct (step w p0 e) as [p1|] eqn:Hstep; [|done].
      apply (IH p1); [|done]. by eapply step_starting.
Qed.

(** X10. A run that the job starts while no other run is in flight
    returns after exactly [2 + n] settlements, [n] the number of listed
    entries: it is still in flight after any smaller number, and when it
    has returned the store is the one of [updateCatalogAndMetaCache] and
    the server state is untouched. *)
Theorem scheduled_run_completes (w : World) (p : Process) :
  inflight p = [] →
  exec w p (CronFire :: replicate (segments w) (Settle 0))
  = Some {| store := updateCatalogAndMetaCache w (store p);
            serving := serving p; inflight := [] |} ∧
  (∀ n, (n < segments w)%nat →
     ∃ p', exec w p (CronFire :: replicate n (Settle 0)) = Some p' ∧
           length (inflight p') = 1%nat ∧ serving p' = serving p).
Proof.
  intros Hidle. cbn [exec step]. rewrite Hidle. cbn [app]. split.
  - rewrite exec_alone_returns. by rewrite orb_false_r.
  - intros n Hn. eexists. split; [|split].
    + apply (exec_alone w (store p) (serving p) false n Hn).
    + done.
    + done.
Qed.

End ProcessInvariants.

(** [exec_never_loses] on an execution with two runs in flight. *)
Lemma exec_never_loses_witness :
  ∃ p0 p,
    startServer freshDisk 1700000000000 = Up p0 ∧
    exec (runtime := exampleRuntime 5) (steadyListing [ironMan] 1)
      p0 [CronFire; CronFire; Settle 0; Settle 1; Settle 0]%nat = Some p ∧
    serving p = true.
Proof.
  do 2 eexists. split; [reflexivity|]. split; [reflexivity|].
  destruct (@exec_never_loses (exampleRuntime 5) (steadyListing [ironMan] 1)
              [CronFire; CronFire; Settle 0; Settle 1; Settle 0]%nat
              {| store := {| catalogCache := cacheOf 1699999000000 [];
                             metaCache := ∅ |};
                 serving := true; inflight := [] |} _ eq_refl) as (Hserve & _).
  apply Hserve. reflexivity.
Defined.

(** [startServer_serves_or_starts] with the job firing during the start-up
    run. *)
Lemma startServer_serves_or_starts_witness :
  ∃ p0 p,
    startServer noDisk 1700000000000 = Up p0 ∧
    exec (runtime := exampleRuntime 5) (steadyListing [ironMan] 1)
      p0 [CronFire; Settle 1; Settle 0]%nat = Some p ∧
    (serving p = true ∨ Exists (λ run, startup run = true) (inflight p)).
Proof.
  do 2 eexists. split; [reflexivity|]. split; [reflexivity|].
  destruct (@startServer_serves_or_starts (exampleRuntime 5)
              (steadyListing [ironMan] 1) noDisk 1700000000000) as (_ & Hstarts).
  apply (Hstarts {| store := initialStore; serving := false;
                    inflight := [refreshCache true] |}
           [CronFire; Settle 1; Settle 0]%nat); reflexivity.
Defined.

(** [scheduled_run_completes] from a process that serves a fresh cache. *)
Lemma scheduled_run_completes_witness :
  ∃ p0,
    startServer freshDisk 1700000000000 = Up p0 ∧
    exec (runtime := exampleRuntime 5) (steadyListing [ironMan] 1)
      p0 [CronFire; Settle 0; Settle 0; Settle 0]%nat
    = Some {| store := updateCatalogAndMetaCache (runtime := exampleRuntime 5)
                         (steadyListing [ironMan] 1) (store p0);
              serving := true; inflight := [] |}.
Proof.
  eexists. split; [reflexivity|].
  destruct (@scheduled_run_completes (exampleRuntime 5) (steadyListing [ironMan] 1)
              {| store := {| catalogCache := cacheOf 1699999000000 [];
                             metaCache := ∅ |};
                 serving := true; inflight := [] |}) as (Hdone & _).
  - reflexivity.
  - exact Hdone.
Defined.

(** ** Start-up and saving *)

Lemma initialRefreshNeeded_false (now : Z) (cache : CatalogCache.t) :
  initialRefreshNeeded now cache = false
  ↔ ∃ timestamp,
      CatalogCache.timestamp cache = Some timestamp ∧
      timestamp ≠ 0 ∧ now - timestamp ≤ 86400000.
Proof.
  unfold initialRefreshNeeded.
  destruct (CatalogCache.timestamp cache) as [timestamp|].
  - rewrite orb_false_iff, Z.eqb_neq, Z.ltb_ge. split.
    + intros [??]. exists timestamp. repeat split; [done|lia].
    + intros (timestamp' & [= <-] & ? & ?). split; [done|lia].
  - split; [done | by intros (timestamp & ? & _)].
Qed.

(** X11. [startServer] throws at line 269, with no run started and no
    server, exactly when the catalog file holds [null]. When neither cache
    file holds [null] it brings the process up with the variables
    [loadCache] gives. It then serves at once, with no run started,
    exactly when the catalog file parsed to a cache whose timestamp is not
    0 and is at most 24 hours (86400000 ms) old; a cache of exactly 24
    hours still counts as fresh, and so does one stamped in the future.
    Otherwise it does not serve yet and has started the one run it
    awaits. *)
Theorem startServer_fresh_iff (disk : Disk) (now : Z) :
  (startServer disk now = Down ↔ catalog_cache_json disk = Null) ∧
  (catalog_cache_json disk ≠ Null → meta_cache_json disk ≠ Null →
   ∃ p,
     startServer disk now = Up p ∧
     loadedCatalog (loadCache disk initialStore) = Some (catalogCache (store p)) ∧
     loadedMeta (loadCache disk initialStore) = Some (metaCache (store p)) ∧
     (serving p = true
      ↔ ∃ cache timestamp,
          catalog_cache_json disk = Parsed cache ∧
          CatalogCache.timestamp cache = Some timestamp ∧
          timestamp ≠ 0 ∧ now - timestamp ≤ 86400000) ∧
     inflight p = (if serving p then [] else [refreshCache true])).
Proof.
  split.
  - unfold startServer, loadCache. cbn [loadedCatalog loadedMeta].
    destruct (catalog_cache_json disk), (meta_cache_json disk);
      split; try done; by case_match.
  - intros Hcatalog Hmeta.
    assert (∃ catalog table,
              loadedCatalog (loadCache disk initialStore) = Some catalog ∧
              loadedMeta (loadCache disk initialStore) = Some table ∧
              ((∃ cache timestamp,
                  catalog_cache_json disk = Parsed cache ∧
                  CatalogCache.timestamp cache = Some timestamp ∧
                  timestamp ≠ 0 ∧ now - timestamp ≤ 86400000)
               ↔ initialRefreshNeeded now catalog = false))
      as (catalog & table & Hc & Ht & Hfresh).
    { unfold loadCache. cbn [loadedCatalog loadedMeta].
      destruct (catalog_cache_json disk) as [| | |cache] eqn:Hfile; [..|]; try done;
        destruct (meta_cache_json disk) as [| | |table]; try done;
        eexists _, _; (split; [done|]); (split; [done|]).
      all: try (split; [by intros (cache & timestamp & ? & _) | done]).
      all: rewrite initialRefreshNeeded_false; split;
        [ intros (cache' & timestamp & [= <-] & ?); by exists timestamp
        | intros (timestamp & ?); by exists cache, timestamp ]. }
    unfold startServer. rewrite Hc, Ht.
    destruct (initialRefreshNeeded now catalog) eqn:Hneed;
      eexists; (split; [done|]); cbn [store serving inflight catalogCache metaCache];
      repeat split; try done.
    + intros Hcache. apply Hfresh in Hcache. congruence.
    + intros _. by apply Hfresh.
Qed.

(** X12. A refresh that has completed and was saved with both writes going
    through survives a restart: started again within 24 hours of the
    run's timestamp (which is not 0), the process serves at once exactly
    the store the run left, and starts no run. *)
Theorem restart_after_save `{runtime : Runtime} (w : World) (st : Store)
    (disk : Disk) (now : Z) :
  Date_now w 0 ≠ 0 →
  now - Date_now w 0 ≤ 86400000 →
  startServer (saveCache Written Written (updateCatalogAndMetaCache w st) disk) now
  = Up {| store := updateCatalogAndMetaCache w st; serving := true;
          inflight := [] |}.
Proof.
  intros Hnonzero Hfresh.
  assert (CatalogCache.timestamp (catalogCache (updateCatalogAndMetaCache w st))
          = Some (Date_now w 0)) as Hstamp.
  { rewrite updateCatalogAndMetaCache_eq. unfold merged.
    by rewrite catalogCache_mergedFrom. }
  unfold startServer, initialRefreshNeeded, saveCache, loadCache.
  cbn [catalog_cache_json meta_cache_json writeFile loadedCatalog loadedMeta].
  rewrite Hstamp. rewrite (proj2 (Z.eqb_neq _ _) Hnonzero).
  rewrite (proj2 (Z.ltb_ge _ _)) by lia. cbn [orb].
  by destruct (updateCatalogAndMetaCache w st).
Qed.

(** X13. The two cache files are written one after the other and nothing
    ties them together. When the first write is rejected the table file is
    not touched. When the first write goes through and the second is
    rejected, a restart within 24 hours serves the new catalog with
    whatever table the disk held before (the empty one when that file is
    missing or does not parse, none at all when it holds [null]), and
    starts no run that would repair it. *)
Theorem restart_after_partial_save (st : Store) (disk : Disk) (now : Z)
    (catalogWrite metaWrite : WriteOutcome) (timestamp : Z) :
  (catalogWrite ≠ Written →
     meta_cache_json (saveCache catalogWrite metaWrite st disk)
     = meta_cache_json disk) ∧
  (metaWrite ≠ Written →
   CatalogCache.timestamp (catalogCache st) = Some timestamp →
   timestamp ≠ 0 → now - timestamp ≤ 86400000 →
     startServer (saveCache Written metaWrite st disk) now
     = match metaWrite, meta_cache_json disk with
       | RejectedUntouched, Null => TableNull (catalogCache st) false
       | RejectedUntouched, Parsed table =>
           Up {| store := {| catalogCache := catalogCache st;
                             metaCache := table |};
                 serving := true; inflight := [] |}
       | _, _ =>
           Up {| store := {| catalogCache := catalogCache st; metaCache := ∅ |};
                 serving := true; inflight := [] |}
       end).
Proof.
  split.
  - by destruct catalogWrite.
  - intros Hmeta Hstamp Hnonzero Hfresh.
    unfold startServer, initialRefreshNeeded, saveCache, loadCache.
    cbn [catalog_cache_json meta_cache_json loadedCatalog loadedMeta].
    rewrite Hstamp, (proj2 (Z.eqb_neq _ _) Hnonzero).
    rewrite (proj2 (Z.ltb_ge _ _)) by lia. cbn [orb].
    destruct metaWrite; [done|..]; cbn [writeFile initialStore metaCache];
      by destruct (meta_cache_json disk).
Qed.

(** [startServer_fresh_iff] on a cache written a little less than a day
    ago. *)
Lemma startServer_fresh_iff_witness :
  ∃ p, startServer freshDisk 1700000000000 = Up p ∧ serving p = true.
Proof.
  destruct (startServer_fresh_iff freshDisk 1700000000000) as (_ & Hup).
  destruct Hup as (p & Hp & _ & _ & Hfresh & _); [discriminate..|].
  exists p. split; [exact Hp|].
  apply Hfresh. exists (cacheOf 1699999000000 []), 1699999000000.
  repeat split; [discriminate | vm_compute; discriminate].
Defined.

(** [restart_after_save] one hour after the run. *)
Lemma restart_after_save_witness :
  startServer
    (saveCache Written Written
       (updateCatalogAndMetaCache (runtime := exampleRuntime 5)
          (steadyListing [ironMan] 1) earlierStore) noDisk)
    1700003600000
  = Up {| store := updateCatalogAndMetaCache (runtime := exampleRuntime 5)
                     (steadyListing [ironMan] 1) earlierStore;
          serving := true; inflight := [] |}.
Proof.
  apply (@restart_after_save (exampleRuntime 5) (steadyListing [ironMan] 1)
           earlierStore noDisk 1700003600000).
  - vm_compute. discriminate.
  - vm_compute. discriminate.
Defined.

(** [restart_after_partial_save]: the catalog of a run is written, the
    table is not, and the restart serves the listed movie without a
    record. *)
Lemma restart_after_partial_save_witness :
  startServer
    (saveCache Written RejectedUntouched
       (updateCatalogAndMetaCache (runtime := exampleRuntime 5)
          (steadyListing [ironMan] 1) initialStore) freshDisk)
    1700003600000
  = Up {| store := {| catalogCache := cacheOf 1700000000000 [ironMan];
                      metaCache := ∅ |};
          serving := true; inflight := [] |}.
Proof.
  destruct (restart_after_partial_save
              (updateCatalogAndMetaCache (runtime := exampleRuntime 5)
                 (steadyListing [ironMan] 1) initialStore)
              freshDisk 1700003600000 Written RejectedUntouched 1700000000000)
    as (_ & Hrestart).
  apply Hrestart.
  - discriminate.
  - reflexivity.
  - discriminate.
  - vm_compute. discriminate.
Defined.

(** ** The handlers *)

Lemma split_dashless_prefix (prefix rest : string) :
  dashless prefix = true →
  split "-" (prefix +:+ "-" +:+ rest) = prefix :: split "-" rest.
Proof.
  induction prefix as [|c prefix IH]; [done|].
  cbn [dashless]. intros [Hc Hprefix]%andb_true_iff.
  apply negb_true_iff in Hc.
  change (String c prefix +:+ "-" +:+ rest)
    with (String c (prefix +:+ "-" +:+ rest)).
  cbn [split]. by rewrite Hc, (IH Hprefix).
Qed.

Lemma split_dashless (s : string) : dashless s = true → split "-" s = [s].
Proof.
  induction s as [|c s IH]; [done|].
  cbn [dashless split]. intros [Hc Hs]%andb_true_iff.
  apply negb_true_iff in Hc. by rewrite Hc, (IH Hs).
Qed.

Lemma allDigits_dashless (s : string) : allDigits s = true → dashless s = true.
Proof.
  induction s as [|c s IH]; [done|].
  cbn [allDigits dashless]. intros [Hc Hs]%andb_true_iff.
  apply bool_decide_eq_true in Hc. by rewrite (digit_not_dash c Hc), (IH Hs).
Qed.

Lemma append_nonempty_r (s t : string) : t ≠ EmptyString → s +:+ t ≠ EmptyString.
Proof. destruct s; [done|]. discriminate. Qed.

Lemma append_empty_r (s : string) : s +:+ EmptyString = s.
Proof.
  induction s as [|c s IH]; [done|].
  change (String c s +:+ EmptyString) with (String c (s +:+ EmptyString)).
  by rewrite IH.
Qed.

(** X14. The meta handler throws exactly when the piece of [args.id]
    after its first dash names a property inherited from
    [Object.prototype] that the table does not hold itself; for every
    other id it answers [null] or a view. *)
Theorem metaHandler_throws_iff (table : gmap string MetaEntry.t) (args_id : string) :
  metaHandler table args_id = Throw
  ↔ default "undefined" (split "-" args_id !! 1%nat) ∈ Object_prototype ∧
    table !! default "undefined" (split "-" args_id !! 1%nat) = None.
Proof.
  unfold metaHandler, getProperty.
  destruct (table !! default "undefined" (split "-" args_id !! 1%nat)) as [entry|].
  - split; [by case_match | by intros [_ ?]].
  - case_bool_decide; split; [done | done | done | by intros [? _]].
Qed.

(** X15. The id the catalog handler gives a summary leads the meta handler
    back to the same movie: the piece after its dash is the table key of
    the movie's id, and two summaries have the same id only when their
    movies have the same id. *)
Theorem preview_id_round_trip :
  (∀ item,
     split "-" (MetaPreview.id (toMetaPreview item)) !! 1%nat
     = Some (propertyKey (Movie.id item))) ∧
  (∀ a b,
     MetaPreview.id (toMetaPreview a) = MetaPreview.id (toMetaPreview b) →
     Movie.id a = Movie.id b).
Proof.
  split.
  - intros item.
    change (MetaPreview.id (toMetaPreview item))
      with ("tmdb-" +:+ propertyKey (Movie.id item)).
    by rewrite split_tmdb_id.
  - intros a b Hid. cbn [toMetaPreview MetaPreview.id] in Hid.
    apply propertyKey_inj. by apply (inj (String.app "tmdb-")) in Hid.
Qed.

(** X16. The meta handler looks only at the piece between the first and
    the second dash of [args.id]: any prefix without a dash stands for
    "tmdb", and whatever follows a second dash is ignored; the id is
    echoed into the view as it came. *)
Theorem metaHandler_reads_second_piece (table : gmap string MetaEntry.t)
    (prefix rest : string) (movieId : N) :
  dashless prefix = true →
  metaHandler table (prefix +:+ "-" +:+ propertyKey movieId)
  = match table !! propertyKey movieId with
    | None => Normal None
    | Some entry =>
        if truthy (MovieData.error (MetaEntry.data entry)) then Normal None
        else Normal (Some (toMeta (prefix +:+ "-" +:+ propertyKey movieId)
                                  (MetaEntry.data entry)))
    end ∧
  metaHandler table (prefix +:+ "-" +:+ propertyKey movieId +:+ "-" +:+ rest)
  = match table !! propertyKey movieId with
    | None => Normal None
    | Some entry =>
        if truthy (MovieData.error (MetaEntry.data entry)) then Normal None
        else Normal (Some (toMeta (prefix +:+ "-" +:+ propertyKey movieId
                                     +:+ "-" +:+ rest)
                                  (MetaEntry.data entry)))
    end.
Proof.
  intros Hprefix.
  pose proof (allDigits_dashless _ (propertyKey_allDigits movieId)) as Hkey.
  split.
  - rewrite metaHandler_not_inherited;
      rewrite (split_dashless_prefix _ _ Hprefix), (split_dashless _ Hkey);
      [done | apply propertyKey_not_inherited].
  - rewrite metaHandler_not_inherited;
      rewrite (split_dashless_prefix _ _ Hprefix), (split_dashless_prefix _ _ Hkey);
      [done | apply propertyKey_not_inherited].
Qed.

(** X17. The view of the meta handler carries the id it was asked for and
    never an empty name, description, runtime or rating: a missing or
    empty title, a missing or empty overview, a missing or zero runtime
    and a missing or zero vote are replaced by a placeholder. *)
Theorem toMeta_defaults (args_id : string) (movieData : MovieData.t) :
  Meta.id (toMeta args_id movieData) = args_id ∧
  Meta.name (toMeta args_id movieData) ≠ EmptyString ∧
  Meta.description (toMeta args_id movieData) ≠ EmptyString ∧
  Meta.runtime (toMeta args_id movieData) ≠ EmptyString ∧
  Meta.rating (toMeta args_id movieData) ≠ EmptyString.
Proof.
  split; [done|]. cbn [toMeta Meta.name Meta.description Meta.runtime Meta.rating].
  split; [|split; [|split]].
  - unfold orElse. by destruct (MovieData.title movieData) as [[|??]|].
  - unfold orElse. by destruct (MovieData.overview movieData) as [[|??]|].
  - destruct (MovieData.runtime movieData) as [[|minutes]|]; [done| |done].
    by apply append_nonempty_r.
  - destruct (MovieData.vote_average movieData) as [vote|]; [|done].
    case_match; [done|]. unfold toFixed1.
    case_match; [done|]. by apply append_nonempty_r.
Qed.


Section SearchFacts.
Context {runtime : Runtime}.

Lemma Array_filter_query (q1 q2 : string) (entries : list Movie.t) :
  toLowerCase q1 = toLowerCase q2 →
  Array_filter (titleIncludes q1) entries = Array_filter (titleIncludes q2) entries.
Proof.
  intros Hsame. induction entries as [|movie entries IH]; [done|].
  cbn [Array_filter]. rewrite IH. unfold titleIncludes. by rewrite Hsame.
Qed.

(** X19. The search does not look at the case of the query: two non-empty
    queries with the same lower-case form get the same answer, a throw
    included. *)
Theorem catalogHandler_query_case (cache : CatalogCache.t) (q1 q2 : string) :
  q1 ≠ EmptyString → q2 ≠ EmptyString →
  toLowerCase q1 = toLowerCase q2 →
  catalogHandler cache (Some q1) = catalogHandler cache (Some q2).
Proof.
  intros H1 H2 Hsame. unfold catalogHandler.
  destruct q1 as [|c1 q1]; [done|]. destruct q2 as [|c2 q2]; [done|].
  cbn [truthy default]. by rewrite (Array_filter_query _ _ _ Hsame).
Qed.

(** X20. In a cache in which every entry has a title, searching for the
    title of a cached entry finds that entry. *)
Theorem catalogHandler_finds_title (cache : CatalogCache.t) (movie : Movie.t)
    (title : string) :
  Forall (λ entry, is_Some (Movie.title entry))
         (default [] (CatalogCache.data cache)) →
  movie ∈ default [] (CatalogCache.data cache) →
  Movie.title movie = Some title →
  title ≠ EmptyString →
  ∃ metas, catalogHandler cache (Some title) = Normal metas ∧
           toMetaPreview movie ∈ metas.
Proof.
  intros Htitled Hmovie Htitle Hnonempty. unfold catalogHandler.
  destruct title as [|c title]; [done|]. cbn [truthy default].
  rewrite (Array_filter_titled _ _ Htitled). eexists. split; [done|].
  apply list_elem_of_In, in_map, filter_In. split; [by apply list_elem_of_In|].
  rewrite Htitle. apply includes_spec. exists EmptyString, EmptyString.
  by rewrite append_empty_r.
Qed.

End SearchFacts.

(** [metaHandler_reads_second_piece] with another prefix and a trailing
    piece. *)
Lemma metaHandler_reads_second_piece_witness :
  metaHandler
    {[ "1726" := {| MetaEntry.timestamp := 5; MetaEntry.data := details "Iron Man" |} ]}
    "imdb-1726-x"
  = Normal (Some (toMeta "imdb-1726-x" (details "Iron Man"))).
Proof.
  destruct (metaHandler_reads_second_piece
              {[ "1726" := {| MetaEntry.timestamp := 5;
                              MetaEntry.data := details "Iron Man" |} ]}
              "imdb" "x" 1726) as (_ & Htrailing); [reflexivity|].
  exact Htrailing.
Defined.


(** [catalogHandler_query_case] for "MAN" and "man". *)
Lemma catalogHandler_query_case_witness :
  catalogHandler (runtime := exampleRuntime 5) (cacheOf 0 [madMax; ironMan])
    (Some "MAN")
  = catalogHandler (runtime := exampleRuntime 5) (cacheOf 0 [madMax; ironMan])
      (Some "man").
Proof.
  apply (@catalogHandler_query_case (exampleRuntime 5)
           (cacheOf 0 [madMax; ironMan]) "MAN" "man");
    [discriminate | discriminate | reflexivity].
Defined.

(** [catalogHandler_finds_title] for "Iron Man". *)
Lemma catalogHandler_finds_title_witness :
  ∃ metas,
    catalogHandler (runtime := exampleRuntime 5) (cacheOf 0 [madMax; ironMan])
      (Some "Iron Man") = Normal metas ∧
    toMetaPreview ironMan ∈ metas.
Proof.
  apply (@catalogHandler_finds_title (exampleRuntime 5)
           (cacheOf 0 [madMax; ironMan]) ironMan "Iron Man").
  - repeat constructor; eexists; reflexivity.
  - apply list_elem_of_In. right. left. reflexivity.
  - reflexivity.
  - discriminate.
Defined.

(** [metaHandler_throws_iff] for an id that names the constructor
    property. *)
Lemma metaHandler_throws_iff_witness :
  metaHandler ∅ "tmdb-constructor" = Throw.
Proof.
  apply (metaHandler_throws_iff ∅ "tmdb-constructor"). split.
  - apply list_elem_of_In. left. reflexivity.
  - reflexivity.
Defined.

(** [preview_id_round_trip] for two entries of the same movie. *)
Lemma preview_id_round_trip_witness :
  Movie.id ironMan = Movie.id (listed 1726 None "1999-01-01").
Proof.
  destruct preview_id_round_trip as (_ & Hsame).
  apply (Hsame ironMan (listed 1726 None "1999-01-01")). reflexivity.
Defined.
